(** * marknotion: Markdown <-> Notion block conversion

    A shallow embedding of [src/marknotion/md2notion.py] and
    [src/marknotion/notion2md.py], followed by the properties of the
    converter that the specification states.

    Conventions of the embedding.
    - Python [str] is [string]; a character is an [ascii].
    - A Python dict read with [.get(key, default)] is a record whose fields
      are [option]s ([None] = key absent), or a [gmap] when the key is
      computed at run time.
    - A [while] loop driven by a cursor [i] is a [Fixpoint] over the same
      cursor, reading [tokens !! i]; a fuel argument bounds the number of
      iterations, and running out of it is the separate outcome
      [OutOfFuel], never confused with a returned value.
    - An exception is the outcome [Raise]. *)

From Stdlib Require Import String Ascii List Arith Lia Bool DecimalString.
From stdpp Require Import base gmap strings list.

Open Scope string_scope.
Open Scope list_scope.

(** ** Strings *)

Module Str.

(** The one-character string holding a line feed. *)
Definition nl : string := String "010"%char EmptyString.

(** Python truthiness of a [str]. *)
Definition truthy (s : string) : bool := negb (s =? EmptyString).

(** [s.rstrip(c)] for a one-character argument. *)
Fixpoint rstrip (c : ascii) (s : string) : string :=
  match s with
  | EmptyString => EmptyString
  | String a s' =>
      let r := rstrip c s' in
      if (a =? c)%char && (r =? EmptyString) then EmptyString else String a r
  end.

(** [s.split(c)] for a one-character separator. *)
Fixpoint split (c : ascii) (s : string) : list string :=
  match s with
  | EmptyString => [EmptyString]
  | String a s' =>
      if (a =? c)%char then EmptyString :: split c s'
      else match split c s' with
           | h :: t => String a h :: t
           | [] => [String a EmptyString]
           end
  end.

(** [sep.join(parts)]. *)
Definition join (sep : string) (parts : list string) : string :=
  String.concat sep parts.

(** ["#" * n]. *)
Fixpoint hashes (n : nat) : string :=
  match n with
  | O => EmptyString
  | S n' => String "#"%char (hashes n')
  end.

(** [str(n)] for a non-negative [int]. *)
Definition of_nat (n : nat) : string := NilZero.string_of_uint (Nat.to_uint n).

End Str.

(** ** Outcomes of partial code *)

Inductive exn : Type := IndexError | ValueError.

Inductive outcome (A : Type) : Type :=
| Ok (a : A)
| Raise (e : exn)
| OutOfFuel.
Arguments Ok {A} a.
Arguments Raise {A} e.
Arguments OutOfFuel {A}.

#[global] Instance outcome_ret : MRet outcome := fun A a => Ok a.

#[global] Instance outcome_bind : MBind outcome := fun A B k m =>
  match m with
  | Ok a => k a
  | Raise e => Raise e
  | OutOfFuel => OutOfFuel
  end.

(** ** Data model *)

(** A markdown-it token, with the attributes the converter reads. *)
#[warnings="-register-all"]
Inductive Token : Type := mkToken {
  tok_type : string;
  tok_tag : string;
  tok_info : string;
  tok_content : string;
  tok_attrs : gmap string string;
  tok_children : option (list Token)
}.

(** [token.attrGet(name)]. *)
Definition attrGet (token : Token) (name : string) : option string :=
  tok_attrs token !! name.

(** The ["text"] member of a rich-text object: [{"content": ..., "link": {"url": ...}}]. *)
Record TextObj : Type := mkTextObj {
  content : option string;
  link : option string
}.

(** A rich-text object (a run). [annotations] maps an annotation name to its
    flag; each key may be absent, as in the wire format. *)
Record RichText : Type := mkRichText {
  rt_type : option string;
  text : option TextObj;
  plain_text : option string;
  href : option string;
  annotations : option (gmap string bool)
}.

(** The dict stored under a block's own type name. *)
Record BlockData : Type := mkBlockData {
  rich_text : option (list RichText);
  language : option string;
  checked : option bool
}.

(** A block dict: [{"object": ..., "type": T, T: {...}}]. [b_data] holds the
    entries whose value is a payload dict, keyed by name. *)
Record Block : Type := mkBlock {
  b_object : option string;
  b_type : option string;
  b_data : gmap string BlockData
}.

(** The empty dict [{}] read as a payload. *)
Definition empty_data : BlockData :=
  {| rich_text := None; language := None; checked := None |}.

(** ** md2notion.py *)

(** Python truthiness of [str | None]. *)
Definition truthy_opt (o : option string) : bool :=
  match o with
  | Some s => Str.truthy s
  | None => false
  end.

Definition _make_rich_text (content : string) (annotations : gmap string bool)
    (href : option string) : RichText :=
  let text_obj :=
    {| content := Some content;
       link := if truthy_opt href then href else None |} in
  {| rt_type := Some "text";
     text := Some text_obj;
     plain_text := Some content;
     href := href;
     annotations := if bool_decide (annotations = ∅) then None else Some annotations |}.

Definition _make_paragraph_block (rich_text : list RichText) : Block :=
  {| b_object := Some "block";
     b_type := Some "paragraph";
     b_data := {[ "paragraph" :=
       {| rich_text := Some rich_text; language := None; checked := None |} ]} |}.

Definition _make_heading_block (level : nat) (rich_text : list RichText) : Block :=
  let level := Nat.min level 3 in
  let heading_type := "heading_" +:+ Str.of_nat level in
  {| b_object := Some "block";
     b_type := Some heading_type;
     b_data := {[ heading_type :=
       {| rich_text := Some rich_text; language := None; checked := None |} ]} |}.

Definition _make_list_item_block (list_type : string) (rich_text : list RichText) : Block :=
  {| b_object := Some "block";
     b_type := Some list_type;
     b_data := {[ list_type :=
       {| rich_text := Some rich_text; language := None; checked := None |} ]} |}.

Definition _make_code_block (content language : string) : Block :=
  {| b_object := Some "block";
     b_type := Some "code";
     b_data := {[ "code" :=
       {| rich_text := Some [_make_rich_text content ∅ None];
          language := Some language;
          checked := None |} ]} |}.

Definition _make_quote_block (rich_text : list RichText) : Block :=
  {| b_object := Some "block";
     b_type := Some "quote";
     b_data := {[ "quote" :=
       {| rich_text := Some rich_text; language := None; checked := None |} ]} |}.

Definition _make_divider_block : Block :=
  {| b_object := Some "block";
     b_type := Some "divider";
     b_data := {[ "divider" := empty_data ]} |}.

(** *** The inline run resolver *)

(** The three locals of [_inline_to_rich_text]. *)
Record InlineState : Type := mkInlineState {
  st_rich_text : list RichText;
  st_annotations : gmap string bool;
  st_link_href : option string
}.

Definition inline_init : InlineState :=
  {| st_rich_text := []; st_annotations := ∅; st_link_href := None |}.

Definition emit (st : InlineState) (r : RichText) : InlineState :=
  {| st_rich_text := st_rich_text st ++ [r];
     st_annotations := st_annotations st;
     st_link_href := st_link_href st |}.

Definition set_annotations (st : InlineState) (a : gmap string bool) : InlineState :=
  {| st_rich_text := st_rich_text st;
     st_annotations := a;
     st_link_href := st_link_href st |}.

Definition set_link (st : InlineState) (l : option string) : InlineState :=
  {| st_rich_text := st_rich_text st;
     st_annotations := st_annotations st;
     st_link_href := l |}.

(** One iteration of the [for token in tokens] loop. [annotations.copy()] is
    the map itself: values are immutable here. *)
Definition inline_step (st : InlineState) (token : Token) : InlineState :=
  if tok_type token =? "text" then
    if Str.truthy (tok_content token)
    then emit st (_make_rich_text (tok_content token) (st_annotations st) (st_link_href st))
    else st
  else if tok_type token =? "code_inline" then
    emit st (_make_rich_text (tok_content token) {[ "code" := true ]} None)
  else if tok_type token =? "strong_open" then
    set_annotations st (<[ "bold" := true ]> (st_annotations st))
  else if tok_type token =? "strong_close" then
    set_annotations st (delete "bold" (st_annotations st))
  else if tok_type token =? "em_open" then
    set_annotations st (<[ "italic" := true ]> (st_annotations st))
  else if tok_type token =? "em_close" then
    set_annotations st (delete "italic" (st_annotations st))
  else if tok_type token =? "s_open" then
    set_annotations st (<[ "strikethrough" := true ]> (st_annotations st))
  else if tok_type token =? "s_close" then
    set_annotations st (delete "strikethrough" (st_annotations st))
  else if tok_type token =? "link_open" then
    set_link st (attrGet token "href")
  else if tok_type token =? "link_close" then
    set_link st None
  else if tok_type token =? "softbreak" then
    emit st (_make_rich_text Str.nl ∅ None)
  else if tok_type token =? "hardbreak" then
    emit st (_make_rich_text Str.nl ∅ None)
  else st.

(** The loop started from an arbitrary state. *)
Definition inline_run (st : InlineState) (tokens : list Token) : InlineState :=
  fold_left inline_step tokens st.

Definition _inline_to_rich_text (tokens : list Token) : list RichText :=
  st_rich_text (inline_run inline_init tokens).

(** [inline_token.children or []]: [None] and the empty list both give [[]]. *)
Definition children_or_nil (inline_token : Token) : list Token :=
  match tok_children inline_token with
  | Some children => children
  | None => []
  end.

(** *** The token-to-block assembler *)

Definition is_list_open (token : Token) : bool :=
  (tok_type token =? "bullet_list_open") || (tok_type token =? "ordered_list_open").

Definition is_list_close (token : Token) : bool :=
  (tok_type token =? "bullet_list_close") || (tok_type token =? "ordered_list_close").

(** [tokens[j]] where the source does not guard the index. *)
Definition item (tokens : list Token) (j : nat) : outcome Token :=
  match tokens !! j with
  | Some t => Ok t
  | None => Raise IndexError
  end.

(** Lines 109-114 of [_parse_list]: skip a nested list. Returns the cursor. *)
Fixpoint skip_nested (fuel : nat) (tokens : list Token) (i nested_depth : nat)
    : outcome nat :=
  match tokens !! i with
  | None => Ok i
  | Some token =>
      if (0 <? nested_depth)%nat then
        match fuel with
        | O => OutOfFuel
        | S fuel' =>
            let nested_depth :=
              if is_list_open token then nested_depth + 1
              else if is_list_close token then nested_depth - 1
              else nested_depth in
            skip_nested fuel' tokens (i + 1) nested_depth
        end
      else Ok i
  end.

(** Lines 99-116 of [_parse_list]: the content of one list item. Returns the
    cursor and [item_content], each entry being the [rich_text] of its dict. *)
Fixpoint item_loop (fuel : nat) (tokens : list Token) (i : nat)
    (item_content : list (list RichText)) : outcome (nat * list (list RichText)) :=
  match tokens !! i with
  | None => Ok (i, item_content)
  | Some token =>
      if tok_type token =? "list_item_close" then Ok (i, item_content)
      else
        match fuel with
        | O => OutOfFuel
        | S fuel' =>
            if tok_type token =? "paragraph_open" then
              inline_token ← item tokens (i + 1);
              let rich_text := _inline_to_rich_text (children_or_nil inline_token) in
              item_loop fuel' tokens (i + 3) (item_content ++ [rich_text])
            else if is_list_open token then
              i' ← skip_nested (length tokens) tokens (i + 1) 1;
              item_loop fuel' tokens i' item_content
            else item_loop fuel' tokens (i + 1) item_content
        end
  end.

(** The [while] loop of [_parse_list]. *)
Fixpoint parse_list_loop (fuel : nat) (tokens : list Token) (list_type : string)
    (i depth : nat) (blocks : list Block) : outcome (list Block * nat) :=
  match tokens !! i with
  | None => Ok (blocks, i)
  | Some token =>
      if (0 <? depth)%nat then
        match fuel with
        | O => OutOfFuel
        | S fuel' =>
            if is_list_open token then
              parse_list_loop fuel' tokens list_type (i + 1) (depth + 1) blocks
            else if is_list_close token then
              parse_list_loop fuel' tokens list_type (i + 1) (depth - 1) blocks
            else if (tok_type token =? "list_item_open") && (depth =? 1)%nat then
              '(i', item_content) ← item_loop (length tokens) tokens (i + 1) [];
              let blocks :=
                match item_content with
                | first :: _ => blocks ++ [_make_list_item_block list_type first]
                | [] => blocks
                end in
              parse_list_loop fuel' tokens list_type (i' + 1) depth blocks
            else parse_list_loop fuel' tokens list_type (i + 1) depth blocks
        end
      else Ok (blocks, i)
  end.

Definition _parse_list (tokens : list Token) (list_type : string)
    : outcome (list Block * nat) :=
  parse_list_loop (length tokens) tokens list_type 1 1 [].

(** The [while] loop of [_parse_blockquote]. *)
Fixpoint parse_blockquote_loop (fuel : nat) (tokens : list Token)
    (i depth : nat) (quote_text : list RichText) : outcome (list RichText * nat) :=
  match tokens !! i with
  | None => Ok (quote_text, i)
  | Some token =>
      if (0 <? depth)%nat then
        match fuel with
        | O => OutOfFuel
        | S fuel' =>
            if tok_type token =? "blockquote_open" then
              parse_blockquote_loop fuel' tokens (i + 1) (depth + 1) quote_text
            else if tok_type token =? "blockquote_close" then
              parse_blockquote_loop fuel' tokens (i + 1) (depth - 1) quote_text
            else if (tok_type token =? "paragraph_open") && (depth =? 1)%nat then
              inline_token ← item tokens (i + 1);
              let rich_text := _inline_to_rich_text (children_or_nil inline_token) in
              parse_blockquote_loop fuel' tokens (i + 3) depth (quote_text ++ rich_text)
            else parse_blockquote_loop fuel' tokens (i + 1) depth quote_text
        end
      else Ok (quote_text, i)
  end.

Definition _parse_blockquote (tokens : list Token) : outcome (list Block * nat) :=
  '(quote_text, i) ← parse_blockquote_loop (length tokens) tokens 1 1 [];
  match quote_text with
  | _ :: _ => Ok ([_make_quote_block quote_text], i)
  | [] => Ok ([], i)
  end.

(** [int(c)] for a one-character string. *)
Definition digit_value (c : ascii) : option nat :=
  let n := nat_of_ascii c in
  if (48 <=? n)%nat && (n <=? 57)%nat then Some (n - 48) else None.

(** [int(token.tag[1])]. *)
Definition heading_level (token : Token) : outcome nat :=
  match String.get 1 (tok_tag token) with
  | None => Raise IndexError
  | Some c =>
      match digit_value c with
      | Some d => Ok d
      | None => Raise ValueError
      end
  end.

(** [token.info or "plain text"]. *)
Definition info_or_plain (token : Token) : string :=
  if Str.truthy (tok_info token) then tok_info token else "plain text".

(** The [while] loop of [_tokens_to_blocks]. *)
Fixpoint tokens_to_blocks_loop (fuel : nat) (tokens : list Token) (i : nat)
    (blocks : list Block) : outcome (list Block) :=
  match tokens !! i with
  | None => Ok blocks
  | Some token =>
      match fuel with
      | O => OutOfFuel
      | S fuel' =>
          if tok_type token =? "heading_open" then
            level ← heading_level token;
            inline_token ← item tokens (i + 1);
            let rich_text := _inline_to_rich_text (children_or_nil inline_token) in
            tokens_to_blocks_loop fuel' tokens (i + 3)
              (blocks ++ [_make_heading_block level rich_text])
          else if tok_type token =? "paragraph_open" then
            inline_token ← item tokens (i + 1);
            let rich_text := _inline_to_rich_text (children_or_nil inline_token) in
            tokens_to_blocks_loop fuel' tokens (i + 3)
              (blocks ++ [_make_paragraph_block rich_text])
          else if tok_type token =? "bullet_list_open" then
            '(list_blocks, consumed) ← _parse_list (drop i tokens) "bulleted_list_item";
            tokens_to_blocks_loop fuel' tokens (i + consumed) (blocks ++ list_blocks)
          else if tok_type token =? "ordered_list_open" then
            '(list_blocks, consumed) ← _parse_list (drop i tokens) "numbered_list_item";
            tokens_to_blocks_loop fuel' tokens (i + consumed) (blocks ++ list_blocks)
          else if tok_type token =? "fence" then
            let language := info_or_plain token in
            let content := Str.rstrip "010"%char (tok_content token) in
            tokens_to_blocks_loop fuel' tokens (i + 1)
              (blocks ++ [_make_code_block content language])
          else if tok_type token =? "code_block" then
            let content := Str.rstrip "010"%char (tok_content token) in
            tokens_to_blocks_loop fuel' tokens (i + 1)
              (blocks ++ [_make_code_block content "plain text"])
          else if tok_type token =? "blockquote_open" then
            '(quote_blocks, consumed) ← _parse_blockquote (drop i tokens);
            tokens_to_blocks_loop fuel' tokens (i + consumed) (blocks ++ quote_blocks)
          else if tok_type token =? "hr" then
            tokens_to_blocks_loop fuel' tokens (i + 1) (blocks ++ [_make_divider_block])
          else tokens_to_blocks_loop fuel' tokens (i + 1) blocks
      end
  end.

Definition _tokens_to_blocks (tokens : list Token) : outcome (list Block) :=
  tokens_to_blocks_loop (length tokens) tokens 0 [].

(** *** The entry point *)

Section Tokenizer.

(** [MarkdownIt("commonmark").parse], the external tokenizer. *)
Variable parse : string -> list Token.

Definition markdown_to_blocks (markdown : string) : outcome (list Block) :=
  let tokens := parse markdown in
  _tokens_to_blocks tokens.

End Tokenizer.

(** ** notion2md.py *)

(** [annotations.get(name)] read as a condition. *)
Definition flag (annotations : gmap string bool) (name : string) : bool :=
  match annotations !! name with
  | Some b => b
  | None => false
  end.

(** Lines 94-97: the local [text] before any wrapping. *)
Definition item_text (item : RichText) : string :=
  let plain := default EmptyString (plain_text item) in
  if negb (Str.truthy plain) then
    let text_obj := default {| content := None; link := None |} (text item) in
    default EmptyString (content text_obj)
  else plain.

(** The body of the [for item in rich_text] loop: the string appended to
    [parts]. Each [let] is one reassignment of the local [text]. *)
Definition render_item (item : RichText) : string :=
  let text0 := item_text item in
  let annotations := default ∅ (annotations item) in
  let href := href item in
  let text1 := if flag annotations "code" then "`" +:+ text0 +:+ "`" else text0 in
  let text2 := if flag annotations "bold" then "**" +:+ text1 +:+ "**" else text1 in
  let text3 := if flag annotations "italic" then "*" +:+ text2 +:+ "*" else text2 in
  let text4 := if flag annotations "strikethrough" then "~~" +:+ text3 +:+ "~~" else text3 in
  if truthy_opt href
  then "[" +:+ text4 +:+ "](" +:+ default EmptyString href +:+ ")"
  else text4.

Definition _rich_text_to_markdown (rich_text : list RichText) : string :=
  let parts := fold_left (fun parts item => parts ++ [render_item item]) rich_text [] in
  Str.join EmptyString parts.

(** [block.get("type", "")]. *)
Definition block_type_of (block : Block) : string :=
  default EmptyString (b_type block).

Definition _block_to_markdown (block : Block) : string :=
  let block_type := block_type_of block in
  let data := default empty_data (b_data block !! block_type) in
  let rt := default [] (rich_text data) in
  if block_type =? "paragraph" then
    _rich_text_to_markdown rt
  else if block_type =? "heading_1" then
    "# " +:+ _rich_text_to_markdown rt
  else if block_type =? "heading_2" then
    "## " +:+ _rich_text_to_markdown rt
  else if block_type =? "heading_3" then
    "### " +:+ _rich_text_to_markdown rt
  else if block_type =? "bulleted_list_item" then
    "- " +:+ _rich_text_to_markdown rt
  else if block_type =? "numbered_list_item" then
    "1. " +:+ _rich_text_to_markdown rt
  else if block_type =? "code" then
    let text := _rich_text_to_markdown rt in
    let language := default EmptyString (language data) in
    let language := if language =? "plain text" then EmptyString else language in
    "```" +:+ language +:+ Str.nl +:+ text +:+ Str.nl +:+ "```"
  else if block_type =? "quote" then
    let text := _rich_text_to_markdown rt in
    let lines := Str.split "010"%char text in
    Str.join Str.nl (map (fun line => "> " +:+ line) lines)
  else if block_type =? "divider" then
    "---"
  else if block_type =? "to_do" then
    let text := _rich_text_to_markdown rt in
    let checked := default false (checked data) in
    let checkbox := if checked then "[x]" else "[ ]" in
    "- " +:+ checkbox +:+ " " +:+ text
  else EmptyString.

Definition is_list_item_type (block_type : string) : bool :=
  (block_type =? "bulleted_list_item") || (block_type =? "numbered_list_item").

(** One iteration of the [for block in blocks] loop over the locals
    [(lines, prev_type)]. *)
Definition serialize_step (st : list string * option string) (block : Block)
    : list string * option string :=
  let '(lines, prev_type) := st in
  let block_type := block_type_of block in
  let content := _block_to_markdown block in
  let lines :=
    if truthy_opt prev_type && Str.truthy content then
      let is_list_continuation :=
        is_list_item_type (default EmptyString prev_type) && is_list_item_type block_type in
      if negb is_list_continuation then lines ++ [EmptyString] else lines
    else lines in
  if Str.truthy content then (lines ++ [content], Some block_type)
  else (lines, prev_type).

Definition blocks_to_markdown (blocks : list Block) : string :=
  let '(lines, _) := fold_left serialize_step blocks ([], None) in
  Str.join Str.nl lines.
(** * Specification-side definitions *)

(** Written after section 4.4 of the specification: a wrapper per annotation,
  composed innermost first, then the link; the rendered runs are placed
  side by side. *)
Module RenderSpec.

Definition has (r : RichText) (name : string) : bool :=
  flag (default ∅ (annotations r)) name.

Definition wrap (delim : string) (on : bool) (t : string) : string :=
  if on then delim +:+ t +:+ delim else t.

Definition wrap_link (target : option string) (t : string) : string :=
  match target with
  | Some url => if Str.truthy url then "[" +:+ t +:+ "](" +:+ url +:+ ")" else t
  | None => t
  end.

Definition render_run (r : RichText) : string :=
  wrap_link (href r)
    (wrap "~~" (has r "strikethrough")
       (wrap "*" (has r "italic")
          (wrap "**" (has r "bold")
             (wrap "`" (has r "code") (item_text r))))).

Fixpoint render (runs : list RichText) : string :=
  match runs with
  | [] => EmptyString
  | r :: runs' => render_run r +:+ render runs'
  end.

End RenderSpec.

(** The block emits a line: its fragment is a non-empty string. *)
Definition emits (block : Block) : bool := Str.truthy (_block_to_markdown block).

(** The ten kinds [_block_to_markdown] has a branch for. *)
Definition supported_kinds : list string :=
  [ "paragraph"; "heading_1"; "heading_2"; "heading_3"; "bulleted_list_item";
    "numbered_list_item"; "code"; "quote"; "divider"; "to_do" ].

(** The [type] field is missing or names none of the ten kinds. *)
Definition unsupported (block : Block) : Prop :=
  match b_type block with
  | Some t => t ∉ supported_kinds
  | None => True
  end.

(** Written after section 4.3 of the specification: the fragments of the
    blocks, with a single newline between two list items and a blank line
    between any other two neighbours. *)
Module SerializeSpec.

Definition is_list_item (block : Block) : bool :=
  bool_decide (b_type block = Some "bulleted_list_item"
               ∨ b_type block = Some "numbered_list_item").

Definition separator (prev next : Block) : string :=
  if is_list_item prev && is_list_item next then Str.nl else Str.nl +:+ Str.nl.

(** What follows the fragment of [prev]. *)
Fixpoint continue (prev : Block) (rest : list Block) : string :=
  match rest with
  | [] => EmptyString
  | next :: rest' =>
      separator prev next +:+ _block_to_markdown next +:+ continue next rest'
  end.

Definition serialize (fragments : list Block) : string :=
  match fragments with
  | [] => EmptyString
  | first :: rest => _block_to_markdown first +:+ continue first rest
  end.

End SerializeSpec.

(** A token of the given type and tag with every other attribute empty. *)
Definition plain_token (type tag : string) : Token :=
  {| tok_type := type; tok_tag := tag; tok_info := EmptyString;
     tok_content := EmptyString; tok_attrs := ∅; tok_children := None |}.

(** A [text] token. *)
Definition text_token (content : string) : Token :=
  {| tok_type := "text"; tok_tag := EmptyString; tok_info := EmptyString;
     tok_content := content; tok_attrs := ∅; tok_children := None |}.

(** An [inline] token over the given children. *)
Definition inline_token (content : string) (children : list Token) : Token :=
  {| tok_type := "inline"; tok_tag := EmptyString; tok_info := EmptyString;
     tok_content := content; tok_attrs := ∅; tok_children := Some children |}.

(** The stream the CommonMark tokenizer gives for the line [- [x] text]: a
    bullet list of one item whose paragraph is the literal text. *)
Definition checkbox_tokens : list Token :=
  [ plain_token "bullet_list_open" "ul";
    plain_token "list_item_open" "li";
    plain_token "paragraph_open" "p";
    inline_token "[x] text" [text_token "[x] text"];
    plain_token "paragraph_close" "p";
    plain_token "list_item_close" "li";
    plain_token "bullet_list_close" "ul" ].

(** The run a code span becomes: annotations [{code}], no link. *)
Definition code_run (content : string) : RichText :=
  {| rt_type := Some "text";
     text := Some {| content := Some content; link := None |};
     plain_text := Some content;
     href := None;
     annotations := Some {[ "code" := true ]} |}.

(** The runs a token sequence emits when the loop is entered with the
    annotations and link of [st]. *)
Definition emitted (st : InlineState) (tokens : list Token) : list RichText :=
  st_rich_text
    (inline_run {| st_rich_text := []; st_annotations := st_annotations st;
                   st_link_href := st_link_href st |} tokens).

(** What the tokenizer hands over for the content of a heading whose text has
    no inline markup: the text as one [text] token, or no child at all when
    the text is empty. *)
Definition plain_children (text : string) (children : list Token) : Prop :=
  (children = [] /\ text = EmptyString)
  \/ (exists t, children = [t] /\ tok_type t = "text" /\ tok_content t = text).

(** The stream of a single ATX heading line of level [n] with plain text:
    [heading_open] tagged [h<n>], the [inline] token, [heading_close]. *)
Definition heading_stream (n : nat) (text : string) (tokens : list Token) : Prop :=
  exists opening inl closing children,
    tokens = [opening; inl; closing]
    /\ tok_type opening = "heading_open"
    /\ tok_tag opening = "h" +:+ Str.of_nat n
    /\ tok_type inl = "inline"
    /\ tok_children inl = Some children
    /\ plain_children text children
    /\ tok_type closing = "heading_close".

(** The line ["#" * n + " " + text]. *)
Definition heading_line (n : nat) (text : string) : string :=
  Str.hashes n +:+ " " +:+ text.

(** The token opens a block whose content is the next token. *)
Definition opens_inline (token : Token) : bool :=
  (tok_type token =? "heading_open") || (tok_type token =? "paragraph_open").

Definition closing_of (type : string) : string :=
  if type =? "heading_open" then "heading_close" else "paragraph_close".

(** The balance the tokenizer guarantees: every [heading_open] and every
    [paragraph_open] is immediately followed by an [inline] token and the
    matching close token. *)
Definition balanced (tokens : list Token) : Prop :=
  forall i token, tokens !! i = Some token -> opens_inline token = true ->
    exists inl closing,
      tokens !! (i + 1) = Some inl /\ tok_type inl = "inline"
      /\ tokens !! (i + 2) = Some closing
      /\ tok_type closing = closing_of (tok_type token).

(** Every [heading_open] carries a tag [int(tag[1])] can read. *)
Definition heading_tags (tokens : list Token) : Prop :=
  forall token, token ∈ tokens -> tok_type token = "heading_open" ->
    exists level, heading_level token = Ok level.

(** The run ended without reading outside the token list: it returned, or
    the exception comes from the tag of a [heading_open] token. *)
Definition in_range {A : Type} (tokens : list Token) (r : outcome A) : Prop :=
  match r with
  | Ok _ => True
  | Raise e =>
      exists token, token ∈ tokens /\ tok_type token = "heading_open"
                    /\ heading_level token = Raise e
  | OutOfFuel => False
  end.

(** *** Well-formed token streams as trees

    A sequence of block-level constructs, as the tokenizer nests them. Each
    constructor carries the tokens that delimit the construct and the
    constructs that follow it. *)
Inductive Nodes : Type :=
| NNil
| NLeaf (token : Token) (rest : Nodes)
| NPara (opening inner closing : Token) (rest : Nodes)
| NHeading (opening inner closing : Token) (rest : Nodes)
| NQuote (opening : Token) (body : Nodes) (closing : Token) (rest : Nodes)
| NList (opening : Token) (items : Items) (closing : Token) (rest : Nodes)
with Items : Type :=
| INil
| ICons (opening : Token) (body : Nodes) (closing : Token) (rest : Items).

Scheme Nodes_mut := Induction for Nodes Sort Prop
  with Items_mut := Induction for Items Sort Prop.
Combined Scheme Nodes_Items_ind from Nodes_mut, Items_mut.

(** The token stream of a tree. *)
Fixpoint flatten (nodes : Nodes) : list Token :=
  match nodes with
  | NNil => []
  | NLeaf token rest => token :: flatten rest
  | NPara opening inner closing rest => opening :: inner :: closing :: flatten rest
  | NHeading opening inner closing rest => opening :: inner :: closing :: flatten rest
  | NQuote opening body closing rest =>
      opening :: flatten body ++ closing :: flatten rest
  | NList opening items closing rest =>
      opening :: flatten_items items ++ closing :: flatten rest
  end
with flatten_items (items : Items) : list Token :=
  match items with
  | INil => []
  | ICons opening body closing rest =>
      opening :: flatten body ++ closing :: flatten_items rest
  end.

(** The token types that open, close or fill a container. *)
Definition structural_types : list string :=
  [ "paragraph_open"; "inline"; "paragraph_close"; "heading_open"; "heading_close";
    "bullet_list_open"; "bullet_list_close"; "ordered_list_open"; "ordered_list_close";
    "list_item_open"; "list_item_close"; "blockquote_open"; "blockquote_close" ].

(** A leaf token ([fence], [code_block], [hr], ...): its type is none of the
    structural ones. *)
Definition is_leaf (token : Token) : bool :=
  forallb (fun type => negb (tok_type token =? type)) structural_types.

(** A list is opened and closed by tokens of the same kind. *)
Definition list_delimiters (opening closing : Token) : Prop :=
  (tok_type opening = "bullet_list_open" /\ tok_type closing = "bullet_list_close")
  \/ (tok_type opening = "ordered_list_open" /\ tok_type closing = "ordered_list_close").

(** The delimiters of every construct have the types of that construct. *)
Fixpoint well_formed (nodes : Nodes) : Prop :=
  match nodes with
  | NNil => True
  | NLeaf token rest => is_leaf token = true /\ well_formed rest
  | NPara opening inner closing rest =>
      tok_type opening = "paragraph_open" /\ tok_type inner = "inline"
      /\ tok_type closing = "paragraph_close" /\ well_formed rest
  | NHeading opening inner closing rest =>
      tok_type opening = "heading_open" /\ tok_type inner = "inline"
      /\ tok_type closing = "heading_close" /\ well_formed rest
  | NQuote opening body closing rest =>
      tok_type opening = "blockquote_open" /\ well_formed body
      /\ tok_type closing = "blockquote_close" /\ well_formed rest
  | NList opening items closing rest =>
      list_delimiters opening closing /\ well_formed_items items /\ well_formed rest
  end
with well_formed_items (items : Items) : Prop :=
  match items with
  | INil => True
  | ICons opening body closing rest =>
      tok_type opening = "list_item_open" /\ well_formed body
      /\ tok_type closing = "list_item_close" /\ well_formed_items rest
  end.

(** The [inline] tokens of the paragraphs that are direct children. *)
Fixpoint direct_paragraphs (body : Nodes) : list Token :=
  match body with
  | NNil => []
  | NPara _ inner _ rest => inner :: direct_paragraphs rest
  | NLeaf _ rest | NHeading _ _ _ rest | NQuote _ _ _ rest | NList _ _ _ rest =>
      direct_paragraphs rest
  end.

(** The [inline] tokens of the paragraphs that are not inside a nested list:
    the direct children and those inside blockquotes, in stream order. *)
Fixpoint paragraphs_outside_lists (body : Nodes) : list Token :=
  match body with
  | NNil => []
  | NPara _ inner _ rest => inner :: paragraphs_outside_lists rest
  | NQuote _ quoted _ rest =>
      paragraphs_outside_lists quoted ++ paragraphs_outside_lists rest
  | NLeaf _ rest | NHeading _ _ _ rest | NList _ _ _ rest =>
      paragraphs_outside_lists rest
  end.

(** The rich text of a paragraph, from its [inline] token. *)
Definition paragraph_rich_text (inner : Token) : list RichText :=
  _inline_to_rich_text (children_or_nil inner).

(** The block of one item: built from the first selected paragraph, none
    when no paragraph is selected. *)
Definition item_block (list_type : string) (paragraphs : list Token) : list Block :=
  match paragraphs with
  | first :: _ => [_make_list_item_block list_type (paragraph_rich_text first)]
  | [] => []
  end.

(** The blocks of the items of a list, for a way to select the paragraphs of
    an item. *)
Fixpoint item_blocks (select : Nodes -> list Token) (list_type : string)
    (items : Items) : list Block :=
  match items with
  | INil => []
  | ICons _ body _ rest =>
      item_block list_type (select body) ++ item_blocks select list_type rest
  end.

(** The block type the assembler gives the items of a list. *)
Definition list_type_of (opening : Token) : string :=
  if tok_type opening =? "bullet_list_open" then "bulleted_list_item"
  else "numbered_list_item".

(** The loops of [_parse_list] with fuel for the whole token list. *)
Definition skip_from (tokens : list Token) (i nested_depth : nat) : outcome nat :=
  skip_nested (length tokens) tokens i nested_depth.

Definition item_from (tokens : list Token) (i : nat)
    (item_content : list (list RichText)) : outcome (nat * list (list RichText)) :=
  item_loop (length tokens) tokens i item_content.

Definition list_from (tokens : list Token) (list_type : string) (i depth : nat)
    (blocks : list Block) : outcome (list Block * nat) :=
  parse_list_loop (length tokens) tokens list_type i depth blocks.

(** A list of one item whose only content is a blockquote holding the
    paragraph [q]: the stream of [- > q]. *)
Definition quoted_item : Items :=
  ICons (plain_token "list_item_open" "li")
    (NQuote (plain_token "blockquote_open" "blockquote")
       (NPara (plain_token "paragraph_open" "p")
          (inline_token "q" [text_token "q"])
          (plain_token "paragraph_close" "p") NNil)
       (plain_token "blockquote_close" "blockquote") NNil)
    (plain_token "list_item_close" "li") INil.

Definition quoted_item_list : Nodes :=
  NList (plain_token "bullet_list_open" "ul") quoted_item
    (plain_token "bullet_list_close" "ul") NNil.

(** The token leaves the nesting depth as it is. *)
Definition neutral (token : Token) : Prop :=
  is_list_open token = false /\ is_list_close token = false.

(** The item loop steps over the token. *)
Definition passive (token : Token) : Prop :=
  neutral token
  /\ (tok_type token =? "list_item_close") = false
  /\ (tok_type token =? "paragraph_open") = false.

(** A list of three items: a paragraph followed by a nested list, a
    blockquote holding a paragraph, and a fence alone. *)
Definition sample_items : Items :=
  ICons (plain_token "list_item_open" "li")
    (NPara (plain_token "paragraph_open" "p") (inline_token "a" [text_token "a"])
       (plain_token "paragraph_close" "p")
       (NList (plain_token "ordered_list_open" "ol")
          (ICons (plain_token "list_item_open" "li")
             (NPara (plain_token "paragraph_open" "p")
                (inline_token "b" [text_token "b"])
                (plain_token "paragraph_close" "p") NNil)
             (plain_token "list_item_close" "li") INil)
          (plain_token "ordered_list_close" "ol") NNil))
    (plain_token "list_item_close" "li")
    (ICons (plain_token "list_item_open" "li")
       (NQuote (plain_token "blockquote_open" "blockquote")
          (NPara (plain_token "paragraph_open" "p")
             (inline_token "q" [text_token "q"])
             (plain_token "paragraph_close" "p") NNil)
          (plain_token "blockquote_close" "blockquote") NNil)
       (plain_token "list_item_close" "li")
       (ICons (plain_token "list_item_open" "li")
          (NLeaf (plain_token "fence" "code") NNil)
          (plain_token "list_item_close" "li") INil)).

(** * Properties *)

(** ** Facts about strings *)

Lemma append_cons (a : ascii) (s t : string) : String a s +:+ t = String a (s +:+ t).
Proof. reflexivity. Qed.

Lemma append_nil_l (s : string) : EmptyString +:+ s = s.
Proof. reflexivity. Qed.

Lemma append_nil_r (s : string) : s +:+ EmptyString = s.
Proof. induction s as [|a s IH]; [reflexivity|]. now rewrite !append_cons, IH. Qed.

Lemma append_assoc (s1 s2 s3 : string) : (s1 +:+ s2) +:+ s3 = s1 +:+ (s2 +:+ s3).
Proof. induction s1 as [|a s1 IH]; [reflexivity|]. now rewrite !append_cons, IH. Qed.

Lemma truthy_true (s : string) : Str.truthy s = true <-> s <> EmptyString.
Proof.
  unfold Str.truthy. destruct (String.eqb_spec s EmptyString); cbn; split; congruence.
Qed.

Lemma truthy_false (s : string) : Str.truthy s = false <-> s = EmptyString.
Proof.
  unfold Str.truthy. destruct (String.eqb_spec s EmptyString); cbn; split; congruence.
Qed.

Lemma truthy_cons (a : ascii) (s : string) : Str.truthy (String a s) = true.
Proof. reflexivity. Qed.

Lemma join_snoc (sep : string) (lines : list string) (x : string) :
  lines <> [] ->
  Str.join sep (lines ++ [x]) = Str.join sep lines +:+ sep +:+ x.
Proof.
  unfold Str.join. induction lines as [|l lines IH]; [congruence|]. intros _.
  destruct lines as [|l' lines]; [reflexivity|].
  change (String.concat sep ((l :: l' :: lines) ++ [x]))
    with (l +:+ sep +:+ String.concat sep ((l' :: lines) ++ [x])).
  rewrite IH by congruence.
  change (String.concat sep (l :: l' :: lines))
    with (l +:+ sep +:+ String.concat sep (l' :: lines)).
  now rewrite !append_assoc.
Qed.

(** ** The rich-text renderer *)

(** The loop of [_rich_text_to_markdown] appends one string per item. *)
Lemma parts_loop (rich_text : list RichText) (parts : list string) :
  fold_left (fun parts item => parts ++ [render_item item]) rich_text parts
  = parts ++ map render_item rich_text.
Proof.
  revert parts. induction rich_text as [|r rich_text IH]; intros parts; cbn.
  - now rewrite app_nil_r.
  - rewrite IH, <- app_assoc. reflexivity.
Qed.

Lemma join_empty_cons (x : string) (parts : list string) :
  Str.join EmptyString (x :: parts) = x +:+ Str.join EmptyString parts.
Proof.
  unfold Str.join. destruct parts as [|y parts]; cbn.
  - now rewrite append_nil_r.
  - reflexivity.
Qed.

Lemma rich_text_to_markdown_nil : _rich_text_to_markdown [] = EmptyString.
Proof. reflexivity. Qed.

Lemma rich_text_to_markdown_cons (r : RichText) (rich_text : list RichText) :
  _rich_text_to_markdown (r :: rich_text)
  = render_item r +:+ _rich_text_to_markdown rich_text.
Proof.
  unfold _rich_text_to_markdown. rewrite !parts_loop. cbn [map app].
  apply join_empty_cons.
Qed.


Lemma render_item_spec (r : RichText) : render_item r = RenderSpec.render_run r.
Proof.
  unfold render_item, RenderSpec.render_run, RenderSpec.wrap, RenderSpec.has,
    RenderSpec.wrap_link.
  destruct (href r) as [url|]; reflexivity.
Qed.


Example render_all_annotations :
  _rich_text_to_markdown
    [ {| rt_type := Some "text"; text := None; plain_text := Some "t";
         href := Some "u";
         annotations := Some (<["strikethrough" := true]> (<["italic" := true]>
                               (<["bold" := true]> {["code" := true]}))) |};
      _make_rich_text "x" ∅ None ]
  = "[~~***`t`***~~](u)x".
Proof. vm_compute. reflexivity. Qed.

(** ** The block serializer *)

Lemma emits_supported (block : Block) :
  emits block = true -> block_type_of block ∈ supported_kinds.
Proof.
  unfold emits, _block_to_markdown, supported_kinds.
  repeat match goal with
         | |- context [String.eqb ?a ?b] =>
             destruct (String.eqb_spec a b) as [->|?]; [intros _; set_solver|]
         end.
  cbn. discriminate.
Qed.

Lemma supported_truthy (t : string) : t ∈ supported_kinds -> Str.truthy t = true.
Proof.
  unfold supported_kinds. rewrite !elem_of_cons, elem_of_nil.
  intros H. repeat (destruct H as [H|H]; [subst t; reflexivity|]). destruct H.
Qed.

Lemma unsupported_fragment (block : Block) :
  unsupported block -> _block_to_markdown block = EmptyString.
Proof.
  intros Hu. destruct (Str.truthy (_block_to_markdown block)) eqn:E.
  - apply emits_supported in E. unfold unsupported, block_type_of in *.
    destruct (b_type block) as [t|]; cbn in E; [contradiction|].
    apply supported_truthy in E. discriminate.
  - now apply truthy_false.
Qed.

(** An empty fragment leaves [lines] and [prev_type] as they were. *)
Lemma serialize_step_skip (st : list string * option string) (block : Block) :
  emits block = false -> serialize_step st block = st.
Proof.
  unfold emits, serialize_step. destruct st as [lines prev_type]. intros ->.
  now rewrite andb_false_r.
Qed.

Lemma serialize_loop_filter (blocks : list Block) (st : list string * option string) :
  fold_left serialize_step blocks st
  = fold_left serialize_step (List.filter emits blocks) st.
Proof.
  revert st. induction blocks as [|b blocks IH]; intros st; [reflexivity|].
  cbn [fold_left List.filter]. destruct (emits b) eqn:E.
  - cbn [fold_left]. apply IH.
  - rewrite serialize_step_skip by exact E. apply IH.
Qed.

Lemma is_list_item_spec (block : Block) :
  is_list_item_type (block_type_of block) = SerializeSpec.is_list_item block.
Proof.
  unfold is_list_item_type, block_type_of, SerializeSpec.is_list_item.
  destruct (b_type block) as [t|]; unfold default; cbn [from_option id].
  - destruct (String.eqb_spec t "bulleted_list_item") as [->|H1];
      [symmetry; apply bool_decide_eq_true; now left|].
    destruct (String.eqb_spec t "numbered_list_item") as [->|H2];
      [symmetry; apply bool_decide_eq_true; now right|].
    symmetry; apply bool_decide_eq_false. intros [[=]|[=]]; congruence.
  - symmetry; apply bool_decide_eq_false. intros [[=]|[=]].
Qed.

(** The loop after a first line has been emitted for [prev]. *)
Lemma serialize_loop_continue (rest : list Block) (prev : Block) (lines : list string) :
  lines <> [] -> emits prev = true -> Forall (fun b => emits b = true) rest ->
  Str.join Str.nl
    (fst (fold_left serialize_step rest (lines, Some (block_type_of prev))))
  = Str.join Str.nl lines +:+ SerializeSpec.continue prev rest.
Proof.
  revert prev lines. induction rest as [|b rest IH]; intros prev lines Hne Hp Hall.
  - cbn. now rewrite append_nil_r.
  - inversion Hall as [|? ? Hb Hrest]; subst.
    cbn [fold_left SerializeSpec.continue].
    assert (Hstep : serialize_step (lines, Some (block_type_of prev)) b
      = ((if is_list_item_type (block_type_of prev) && is_list_item_type (block_type_of b)
          then lines else lines ++ [EmptyString]) ++ [_block_to_markdown b],
         Some (block_type_of b))).
    { unfold serialize_step. unfold emits in Hb. rewrite Hb. unfold default. cbn [truthy_opt from_option id].
      rewrite (supported_truthy _ (emits_supported _ Hp)). cbn [andb negb].
      now destruct (is_list_item_type (block_type_of prev) && is_list_item_type (block_type_of b)). }
    rewrite Hstep, IH; [| |exact Hb|exact Hrest].
    + unfold SerializeSpec.separator. rewrite <- !is_list_item_spec.
      destruct (is_list_item_type (block_type_of prev) && is_list_item_type (block_type_of b)).
      * rewrite join_snoc by exact Hne. now rewrite !append_assoc.
      * rewrite join_snoc by (destruct lines; discriminate).
        rewrite join_snoc by exact Hne. now rewrite !append_assoc.
    + destruct (is_list_item_type (block_type_of prev) && is_list_item_type (block_type_of b));
        [destruct lines|destruct lines]; cbn; congruence.
Qed.

Lemma blocks_to_markdown_all_emit (blocks : list Block) :
  Forall (fun b => emits b = true) blocks ->
  blocks_to_markdown blocks = SerializeSpec.serialize blocks.
Proof.
  intros Hall. unfold blocks_to_markdown.
  destruct blocks as [|b blocks]; [reflexivity|].
  inversion Hall as [|? ? Hb Hrest]; subst.
  cbn [fold_left SerializeSpec.serialize].
  assert (Hstep : serialize_step ([], None) b
                  = ([_block_to_markdown b], Some (block_type_of b))).
  { unfold serialize_step. unfold emits in Hb. now rewrite Hb. }
  rewrite Hstep.
  pose proof (serialize_loop_continue blocks b [_block_to_markdown b]) as H.
  destruct (fold_left serialize_step blocks _) as [lines pt]. cbn [fst] in H.
  rewrite H; [reflexivity|discriminate|exact Hb|exact Hrest].
Qed.

Lemma filter_emits_Forall (blocks : list Block) :
  Forall (fun b => emits b = true) (List.filter emits blocks).
Proof.
  apply List.Forall_forall. intros b Hb. now apply List.filter_In in Hb.
Qed.

(** C2. The output is the fragments of the blocks that emit one, where two
    neighbouring fragments are separated by a single newline when both
    blocks are list items (bulleted or numbered, in any combination) and by
    a blank line, that is two newlines, otherwise. *)
Theorem blocks_to_markdown_separators (blocks : list Block) :
  blocks_to_markdown blocks = SerializeSpec.serialize (List.filter emits blocks).
Proof.
  rewrite <- blocks_to_markdown_all_emit by apply filter_emits_Forall.
  unfold blocks_to_markdown. now rewrite serialize_loop_filter.
Qed.

(** C7. A block whose fragment is the empty string changes neither [lines]
    nor [prev_type], so serializing a sequence gives the same text as
    serializing it with every such block removed. *)
Theorem blocks_to_markdown_skips_empty (blocks : list Block) :
  (forall st b, _block_to_markdown b = EmptyString -> serialize_step st b = st)
  /\ blocks_to_markdown blocks = blocks_to_markdown (List.filter emits blocks).
Proof.
  split.
  - intros st b E. apply serialize_step_skip. unfold emits. now rewrite E.
  - unfold blocks_to_markdown. now rewrite <- serialize_loop_filter.
Qed.

Lemma blocks_to_markdown_skips_empty_witness :
  serialize_step (["a"], Some "paragraph") (_make_paragraph_block [])
  = (["a"], Some "paragraph")
  /\ blocks_to_markdown
       [ _make_list_item_block "bulleted_list_item" [_make_rich_text "a" ∅ None];
         _make_paragraph_block [];
         _make_list_item_block "bulleted_list_item" [_make_rich_text "b" ∅ None] ]
     = blocks_to_markdown
         [ _make_list_item_block "bulleted_list_item" [_make_rich_text "a" ∅ None];
           _make_list_item_block "bulleted_list_item" [_make_rich_text "b" ∅ None] ].
Proof.
  split.
  - apply (proj1 (blocks_to_markdown_skips_empty [])). reflexivity.
  - apply (proj2 (blocks_to_markdown_skips_empty
      [ _make_list_item_block "bulleted_list_item" [_make_rich_text "a" ∅ None];
        _make_paragraph_block [];
        _make_list_item_block "bulleted_list_item" [_make_rich_text "b" ∅ None] ])).
Defined.

(** C10. A block whose [type] is missing or names none of the ten kinds has
    the empty fragment, and dropping it from any sequence changes nothing in
    the output: the blocks around it are separated as if it were absent. *)
Theorem blocks_to_markdown_unsupported (block : Block) (before after : list Block) :
  unsupported block ->
  _block_to_markdown block = EmptyString
  /\ blocks_to_markdown (before ++ block :: after) = blocks_to_markdown (before ++ after).
Proof.
  intros Hu. pose proof (unsupported_fragment block Hu) as Hf. split; [exact Hf|].
  unfold blocks_to_markdown. rewrite !fold_left_app. cbn [fold_left].
  rewrite serialize_step_skip; [reflexivity|].
  unfold emits. now rewrite Hf.
Qed.

Lemma blocks_to_markdown_unsupported_witness :
  _block_to_markdown
    {| b_object := Some "block"; b_type := Some "table"; b_data := ∅ |} = EmptyString
  /\ blocks_to_markdown
       ([_make_list_item_block "bulleted_list_item" [_make_rich_text "a" ∅ None]]
        ++ {| b_object := Some "block"; b_type := Some "table"; b_data := ∅ |}
        :: [_make_list_item_block "bulleted_list_item" [_make_rich_text "b" ∅ None]])
     = blocks_to_markdown
         ([_make_list_item_block "bulleted_list_item" [_make_rich_text "a" ∅ None]]
          ++ [_make_list_item_block "bulleted_list_item" [_make_rich_text "b" ∅ None]]).
Proof.
  apply blocks_to_markdown_unsupported.
  unfold unsupported, supported_kinds. cbn [b_type].
  rewrite !elem_of_cons, elem_of_nil. intros H.
  repeat (destruct H as [H|H]; [discriminate H|]). exact H.
Defined.

Example separators_examples :
  blocks_to_markdown
    [ _make_list_item_block "bulleted_list_item" [_make_rich_text "a" ∅ None];
      _make_list_item_block "numbered_list_item" [_make_rich_text "b" ∅ None];
      _make_paragraph_block [_make_rich_text "c" ∅ None];
      _make_divider_block ]
  = "- a" +:+ Str.nl +:+ "1. b" +:+ Str.nl +:+ Str.nl +:+ "c"
      +:+ Str.nl +:+ Str.nl +:+ "---".
Proof. vm_compute. reflexivity. Qed.

(** ** The inline run resolver *)

Lemma inline_step_prefix (st : InlineState) (token : Token) (prefix : list RichText) :
  inline_step {| st_rich_text := prefix; st_annotations := st_annotations st;
                 st_link_href := st_link_href st |} token
  = {| st_rich_text := prefix ++ emitted st [token];
       st_annotations := st_annotations (inline_step st token);
       st_link_href := st_link_href (inline_step st token) |}.
Proof.
  unfold emitted, inline_run. cbn [fold_left]. unfold inline_step.
  repeat case_match; cbn; rewrite ?app_nil_r; reflexivity.
Qed.

Lemma inline_run_prefix (tokens : list Token) (st : InlineState) (prefix : list RichText) :
  st_rich_text
    (inline_run {| st_rich_text := prefix; st_annotations := st_annotations st;
                   st_link_href := st_link_href st |} tokens)
  = prefix ++ emitted st tokens.
Proof.
  revert st prefix. induction tokens as [|t tokens IH]; intros st prefix.
  - cbn. now rewrite app_nil_r.
  - unfold emitted, inline_run in *. cbn [fold_left].
    rewrite (inline_step_prefix st t prefix), (inline_step_prefix st t []).
    rewrite (IH (inline_step st t) (prefix ++ _)), (IH (inline_step st t) ([] ++ _)).
    cbn [app]. now rewrite app_assoc.
Qed.

Lemma inline_run_split (tokens : list Token) (st : InlineState) :
  st_rich_text (inline_run st tokens) = st_rich_text st ++ emitted st tokens.
Proof. destruct st as [rt a l]. apply (inline_run_prefix tokens (mkInlineState rt a l) rt). Qed.

(** C3. From any state of the resolver, whatever annotations are open and
    whatever link is active, a [code_inline] token appends exactly one run,
    whose annotations are exactly [{code}] and which has no link, and leaves
    the open annotations and the active link as they were; so in any token
    sequence the run sits between what the earlier and the later tokens
    emit. *)
Theorem code_inline_run (before after : list Token) (token : Token) :
  tok_type token = "code_inline" ->
  (forall st, inline_step st token = emit st (code_run (tok_content token)))
  /\ annotations (code_run (tok_content token)) = Some {[ "code" := true ]}
  /\ href (code_run (tok_content token)) = None
  /\ _inline_to_rich_text (before ++ token :: after)
     = _inline_to_rich_text before
         ++ code_run (tok_content token)
         :: emitted (inline_run inline_init before) after.
Proof.
  intros Ht.
  assert (Hstep : forall st, inline_step st token = emit st (code_run (tok_content token))).
  { intros st. unfold inline_step. rewrite Ht. reflexivity. }
  repeat split; [exact Hstep|].
  unfold _inline_to_rich_text, inline_run. rewrite fold_left_app. cbn [fold_left].
  rewrite Hstep. fold (inline_run inline_init before).
  fold (inline_run (emit (inline_run inline_init before) (code_run (tok_content token))) after).
  rewrite inline_run_split. cbn [emit st_rich_text]. rewrite <- app_assoc. reflexivity.
Qed.

Lemma code_inline_run_witness :
  _inline_to_rich_text
    ([plain_token "strong_open" "strong";
      {| tok_type := "link_open"; tok_tag := "a"; tok_info := EmptyString;
         tok_content := EmptyString; tok_attrs := {[ "href" := "u" ]};
         tok_children := None |}]
     ++ {| tok_type := "code_inline"; tok_tag := "code"; tok_info := EmptyString;
           tok_content := "x"; tok_attrs := ∅; tok_children := None |}
     :: [text_token "y"])
  = [code_run "x"; _make_rich_text "y" {[ "bold" := true ]} (Some "u")].
Proof.
  refine (eq_trans (proj2 (proj2 (proj2 (code_inline_run _ _ _ _)))) _);
    [reflexivity | vm_compute; reflexivity].
Defined.

(** ** Code blocks *)



(** ** Block kinds the assembler can produce *)

Section BlockInvariant.

Variable Q : Block -> Prop.
Hypothesis Q_heading : forall level rich_text, Q (_make_heading_block level rich_text).
Hypothesis Q_paragraph : forall rich_text, Q (_make_paragraph_block rich_text).
Hypothesis Q_bulleted : forall rich_text, Q (_make_list_item_block "bulleted_list_item" rich_text).
Hypothesis Q_numbered : forall rich_text, Q (_make_list_item_block "numbered_list_item" rich_text).
Hypothesis Q_code : forall content language, Q (_make_code_block content language).
Hypothesis Q_quote : forall rich_text, Q (_make_quote_block rich_text).
Hypothesis Q_divider : Q _make_divider_block.

Lemma parse_list_loop_blocks (tokens : list Token) (list_type : string) :
  (forall rich_text, Q (_make_list_item_block list_type rich_text)) ->
  forall fuel i depth blocks out n,
    parse_list_loop fuel tokens list_type i depth blocks = Ok (out, n) ->
    Forall Q blocks -> Forall Q out.
Proof.
  intros HQ. induction fuel as [|fuel IH]; intros i depth blocks out n; cbn [parse_list_loop].
  - repeat case_match; intros [=]; subst; auto.
  - repeat case_match; try (intros [=]; subst; now auto);
      try (intros Hrun Hall; eapply IH; [exact Hrun|]; auto).
    all: unfold mbind, outcome_bind; repeat case_match; try discriminate.
    all: intros Hrun Hall; eapply IH; [exact Hrun|]; auto.
    apply Forall_app; split; auto.
Qed.

Lemma parse_blockquote_blocks (tokens : list Token) (out : list Block) (n : nat) :
  _parse_blockquote tokens = Ok (out, n) -> Forall Q out.
Proof.
  unfold _parse_blockquote, mbind, outcome_bind.
  repeat case_match; intros [=]; subst; auto.
Qed.

Lemma tokens_to_blocks_loop_blocks (tokens : list Token) :
  forall fuel i blocks out,
    tokens_to_blocks_loop fuel tokens i blocks = Ok out ->
    Forall Q blocks -> Forall Q out.
Proof.
  induction fuel as [|fuel IH]; intros i blocks out; cbn [tokens_to_blocks_loop].
  - repeat case_match; intros [=]; subst; auto.
  - destruct (tokens !! i) as [token|]; [|intros [=]; subst; now auto].
    unfold mbind, outcome_bind.
    repeat case_match; try discriminate;
      intros Hrun Hall; (eapply IH; [exact Hrun|]); auto;
      apply Forall_app; split; auto.
    + eapply parse_list_loop_blocks; [exact Q_bulleted| |constructor].
      unfold _parse_list in *; eassumption.
    + eapply parse_list_loop_blocks; [exact Q_numbered| |constructor].
      unfold _parse_list in *; eassumption.
    + eapply parse_blockquote_blocks; eassumption.
Qed.

End BlockInvariant.

(** C9. No block the assembler returns has type [to_do], whatever the token
    stream; the stream of the line [- [x] text] gives one ordinary
    [bulleted_list_item] whose text keeps the bracket characters. *)
Theorem assembler_never_to_do :
  (forall parse markdown blocks,
     markdown_to_blocks parse markdown = Ok blocks ->
     Forall (fun b => b_type b <> Some "to_do") blocks)
  /\ _tokens_to_blocks checkbox_tokens
     = Ok [_make_list_item_block "bulleted_list_item" [_make_rich_text "[x] text" ∅ None]].
Proof.
  split; [|vm_compute; reflexivity].
  intros parse markdown blocks Hrun. unfold markdown_to_blocks, _tokens_to_blocks in Hrun.
  eapply (tokens_to_blocks_loop_blocks (fun b => b_type b <> Some "to_do"));
    try exact Hrun; try constructor; intros; discriminate.
Qed.

Lemma assembler_never_to_do_witness :
  Forall (fun b => b_type b <> Some "to_do")
    [_make_list_item_block "bulleted_list_item" [_make_rich_text "[x] text" ∅ None]].
Proof.
  apply (proj1 assembler_never_to_do (fun _ => checkbox_tokens) "- [x] text").
  vm_compute. reflexivity.
Defined.

(** ** Heading round trip *)

Lemma render_plain_run (s : string) : render_item (_make_rich_text s ∅ None) = s.
Proof. destruct s; reflexivity. Qed.

Lemma plain_children_render (text : string) (children : list Token) :
  plain_children text children ->
  _rich_text_to_markdown (_inline_to_rich_text children) = text.
Proof.
  intros [[-> ->]|(t & -> & Hty & Hc)]; [reflexivity|].
  unfold _inline_to_rich_text, inline_run. cbn [fold_left]. unfold inline_step.
  rewrite Hty, Hc. cbn [String.eqb Ascii.eqb Bool.eqb].
  destruct text as [|a text]; [reflexivity|]. rewrite truthy_cons.
  cbn [emit inline_init st_rich_text st_annotations st_link_href app].
  rewrite rich_text_to_markdown_cons, render_plain_run. apply append_nil_r.
Qed.

Lemma heading_block_markdown (n : nat) (rich_text : list RichText) :
  1 <= n <= 3 ->
  _block_to_markdown (_make_heading_block n rich_text)
  = Str.hashes n +:+ " " +:+ _rich_text_to_markdown rich_text.
Proof.
  intros Hn. assert (Hcases : n = 1 \/ n = 2 \/ n = 3) by lia.
  destruct Hcases as [ -> | [ -> | -> ] ]; reflexivity.
Qed.

Lemma blocks_to_markdown_single (block : Block) :
  emits block = true -> blocks_to_markdown [block] = _block_to_markdown block.
Proof.
  intros He. rewrite blocks_to_markdown_all_emit by (constructor; [exact He|constructor]).
  cbn. apply append_nil_r.
Qed.

(** C1. When the tokenizer hands over a line ["#" * n + " " + text], for
    [n] from 1 to 3 and a text without inline markup, as the three tokens of
    a level-[n] heading over that text, converting the line to blocks and
    back returns the line itself. *)
Theorem heading_round_trip (parse : string -> list Token) (n : nat) (text : string) :
  1 <= n <= 3 ->
  heading_stream n text (parse (heading_line n text)) ->
  exists blocks,
    markdown_to_blocks parse (heading_line n text) = Ok blocks
    /\ blocks_to_markdown blocks = heading_line n text.
Proof.
  intros Hn (opening & inl & closing & children & Htok & Hty & Htag & _ & Hch & Hplain & _).
  unfold markdown_to_blocks. rewrite Htok.
  exists [_make_heading_block n (_inline_to_rich_text children)].
  pose proof (plain_children_render text children Hplain) as Hr.
  split.
  - destruct opening as [ty tag inf cont attrs ch].
    destruct inl as [ty2 tag2 inf2 cont2 attrs2 ch2].
    cbn [tok_type tok_tag tok_children] in *. subst ty tag ch2.
    assert (Hcases : n = 1 \/ n = 2 \/ n = 3) by lia.
    destruct Hcases as [ -> | [ -> | -> ] ]; reflexivity.
  - rewrite blocks_to_markdown_single.
    + now rewrite heading_block_markdown, Hr.
    + unfold emits. rewrite heading_block_markdown by exact Hn.
      destruct n as [|n]; [lia|reflexivity].
Qed.

Lemma heading_round_trip_witness :
  exists blocks,
    markdown_to_blocks
      (fun _ => [plain_token "heading_open" "h2";
                 inline_token "Hello" [text_token "Hello"];
                 plain_token "heading_close" "h2"]) "## Hello" = Ok blocks
    /\ blocks_to_markdown blocks = "## Hello".
Proof.
  apply (heading_round_trip _ 2 "Hello"); [lia|].
  exists (plain_token "heading_open" "h2"), (inline_token "Hello" [text_token "Hello"]),
    (plain_token "heading_close" "h2"), [text_token "Hello"].
  repeat split. right. exists (text_token "Hello"). repeat split.
Defined.

(** ** Totality of the assembler *)

Lemma balanced_next (tokens : list Token) (i : nat) (token : Token) :
  balanced tokens -> tokens !! i = Some token -> opens_inline token = true ->
  exists inl, item tokens (i + 1) = Ok inl.
Proof.
  intros Hb Hi Ho. destruct (Hb i token Hi Ho) as (inl & closing & Hn & _).
  exists inl. unfold item. now rewrite Hn.
Qed.

Lemma balanced_drop (tokens : list Token) (i : nat) :
  balanced tokens -> balanced (drop i tokens).
Proof.
  intros Hb j token Hj Ho. rewrite lookup_drop in Hj.
  destruct (Hb (i + j) token Hj Ho) as (inl & closing & H1 & H2 & H3 & H4).
  exists inl, closing. rewrite !lookup_drop.
  replace (i + (j + 1)) with (i + j + 1) by lia.
  replace (i + (j + 2)) with (i + j + 2) by lia. auto.
Qed.

Lemma paragraph_opens (token : Token) :
  (tok_type token =? "paragraph_open") = true -> opens_inline token = true.
Proof. unfold opens_inline. intros ->. apply orb_true_r. Qed.

Lemma heading_opens (token : Token) :
  (tok_type token =? "heading_open") = true -> opens_inline token = true.
Proof. unfold opens_inline. now intros ->. Qed.

(** With no fuel left the cursor is already past the end. *)
Ltac past_end Hi Hlen :=
  exfalso; apply lookup_lt_Some in Hi; cbn in Hlen; lia.

Lemma skip_nested_total (tokens : list Token) :
  forall fuel i nested_depth,
    length tokens <= fuel + i ->
    exists i', skip_nested fuel tokens i nested_depth = Ok i' /\ i <= i'.
Proof.
  induction fuel as [|fuel IH]; intros i d Hlen; cbn [skip_nested];
    destruct (tokens !! i) as [token|] eqn:Hi; try (exists i; split; [reflexivity|lia]).
  - destruct (0 <? d)%nat; [past_end Hi Hlen|]. exists i; split; [reflexivity|lia].
  - destruct (0 <? d)%nat; [|exists i; split; [reflexivity|lia]].
    match goal with |- context [skip_nested fuel tokens (i + 1) ?d'] =>
      destruct (IH (i + 1) d') as (i' & -> & Hle); [lia|] end.
    exists i'; split; [reflexivity|lia].
Qed.

Lemma item_loop_total (tokens : list Token) :
  balanced tokens ->
  forall fuel i item_content,
    length tokens <= fuel + i ->
    exists i' item_content',
      item_loop fuel tokens i item_content = Ok (i', item_content') /\ i <= i'.
Proof.
  intros Hb. induction fuel as [|fuel IH]; intros i ic Hlen; cbn [item_loop];
    destruct (tokens !! i) as [token|] eqn:Hi;
    try (exists i, ic; split; [reflexivity|lia]).
  - destruct (tok_type token =? "list_item_close"); [|past_end Hi Hlen].
    exists i, ic; split; [reflexivity|lia].
  - destruct (tok_type token =? "list_item_close");
      [exists i, ic; split; [reflexivity|lia]|].
    destruct (tok_type token =? "paragraph_open") eqn:Hp.
    + destruct (balanced_next tokens i token Hb Hi (paragraph_opens _ Hp)) as (inl & ->).
      cbn [mbind outcome_bind].
      match goal with |- context [item_loop fuel tokens (i + 3) ?c] =>
        destruct (IH (i + 3) c) as (i' & ic' & -> & Hle); [lia|] end.
      exists i', ic'; split; [reflexivity|lia].
    + destruct (is_list_open token).
      * destruct (skip_nested_total tokens (length tokens) (i + 1) 1) as (j & -> & Hj); [lia|].
        cbn [mbind outcome_bind].
        destruct (IH j ic) as (i' & ic' & -> & Hle); [lia|].
        exists i', ic'; split; [reflexivity|lia].
      * destruct (IH (i + 1) ic) as (i' & ic' & -> & Hle); [lia|].
        exists i', ic'; split; [reflexivity|lia].
Qed.

Lemma parse_list_loop_total (tokens : list Token) (list_type : string) :
  balanced tokens ->
  forall fuel i depth blocks,
    length tokens <= fuel + i ->
    exists out n,
      parse_list_loop fuel tokens list_type i depth blocks = Ok (out, n) /\ i <= n.
Proof.
  intros Hb. induction fuel as [|fuel IH]; intros i depth blocks Hlen;
    cbn [parse_list_loop]; destruct (tokens !! i) as [token|] eqn:Hi;
    try (exists blocks, i; split; [reflexivity|lia]).
  - destruct (0 <? depth)%nat; [past_end Hi Hlen|].
    exists blocks, i; split; [reflexivity|lia].
  - destruct (0 <? depth)%nat; [|exists blocks, i; split; [reflexivity|lia]].
    destruct (is_list_open token).
    { destruct (IH (i + 1) (depth + 1) blocks) as (out & n & -> & Hle); [lia|].
      exists out, n; split; [reflexivity|lia]. }
    destruct (is_list_close token).
    { destruct (IH (i + 1) (depth - 1) blocks) as (out & n & -> & Hle); [lia|].
      exists out, n; split; [reflexivity|lia]. }
    destruct ((tok_type token =? "list_item_open") && (depth =? 1)%nat).
    + destruct (item_loop_total tokens Hb (length tokens) (i + 1) [])
        as (j & ic & -> & Hj); [lia|].
      cbn [mbind outcome_bind].
      match goal with |- context [parse_list_loop fuel tokens list_type (j + 1) depth ?b] =>
        destruct (IH (j + 1) depth b) as (out & n & -> & Hle); [lia|] end.
      exists out, n; split; [reflexivity|lia].
    + destruct (IH (i + 1) depth blocks) as (out & n & -> & Hle); [lia|].
      exists out, n; split; [reflexivity|lia].
Qed.

Lemma parse_list_total (tokens : list Token) (list_type : string) :
  balanced tokens ->
  exists out n, _parse_list tokens list_type = Ok (out, n) /\ 1 <= n.
Proof.
  intros Hb. unfold _parse_list.
  apply (parse_list_loop_total tokens list_type Hb). lia.
Qed.

Lemma parse_blockquote_loop_total (tokens : list Token) :
  balanced tokens ->
  forall fuel i depth quote_text,
    length tokens <= fuel + i ->
    exists out n,
      parse_blockquote_loop fuel tokens i depth quote_text = Ok (out, n) /\ i <= n.
Proof.
  intros Hb. induction fuel as [|fuel IH]; intros i depth qt Hlen;
    cbn [parse_blockquote_loop]; destruct (tokens !! i) as [token|] eqn:Hi;
    try (exists qt, i; split; [reflexivity|lia]).
  - destruct (0 <? depth)%nat; [past_end Hi Hlen|].
    exists qt, i; split; [reflexivity|lia].
  - destruct (0 <? depth)%nat; [|exists qt, i; split; [reflexivity|lia]].
    destruct (tok_type token =? "blockquote_open").
    { destruct (IH (i + 1) (depth + 1) qt) as (out & n & -> & Hle); [lia|].
      exists out, n; split; [reflexivity|lia]. }
    destruct (tok_type token =? "blockquote_close").
    { destruct (IH (i + 1) (depth - 1) qt) as (out & n & -> & Hle); [lia|].
      exists out, n; split; [reflexivity|lia]. }
    destruct (tok_type token =? "paragraph_open") eqn:Hp; cbn [andb].
    + destruct (depth =? 1)%nat.
      * destruct (balanced_next tokens i token Hb Hi (paragraph_opens _ Hp)) as (inl & ->).
        cbn [mbind outcome_bind].
        match goal with |- context [parse_blockquote_loop fuel tokens (i + 3) depth ?q] =>
          destruct (IH (i + 3) depth q) as (out & n & -> & Hle); [lia|] end.
        exists out, n; split; [reflexivity|lia].
      * destruct (IH (i + 1) depth qt) as (out & n & -> & Hle); [lia|].
        exists out, n; split; [reflexivity|lia].
    + destruct (IH (i + 1) depth qt) as (out & n & -> & Hle); [lia|].
      exists out, n; split; [reflexivity|lia].
Qed.

Lemma parse_blockquote_total (tokens : list Token) :
  balanced tokens ->
  exists out n, _parse_blockquote tokens = Ok (out, n) /\ 1 <= n.
Proof.
  intros Hb. unfold _parse_blockquote.
  destruct (parse_blockquote_loop_total tokens Hb (length tokens) 1 1 [])
    as (qt & n & -> & Hle); [lia|].
  cbn [mbind outcome_bind]. destruct qt; eauto.
Qed.

Lemma heading_level_in_range (tokens : list Token) (i : nat) (token : Token) :
  tokens !! i = Some token -> tok_type token = "heading_open" ->
  match heading_level token with
  | Ok _ => True
  | Raise e => forall A, @in_range A tokens (Raise e)
  | OutOfFuel => False
  end.
Proof.
  intros Hi Hty. destruct (heading_level token) as [level|e|] eqn:Hl; [exact I| |].
  - intros A. exists token. split; [eapply list_elem_of_lookup_2; exact Hi|]. now split.
  - unfold heading_level in Hl. repeat case_match; discriminate.
Qed.

Lemma tokens_to_blocks_loop_in_range (tokens : list Token) :
  balanced tokens ->
  forall fuel i blocks,
    length tokens <= fuel + i ->
    in_range tokens (tokens_to_blocks_loop fuel tokens i blocks).
Proof.
  intros Hb. induction fuel as [|fuel IH]; intros i blocks Hlen;
    cbn [tokens_to_blocks_loop]; destruct (tokens !! i) as [token|] eqn:Hi;
    try exact I.
  - past_end Hi Hlen.
  - destruct (String.eqb_spec (tok_type token) "heading_open") as [Hh|_].
    { pose proof (heading_level_in_range tokens i token Hi Hh) as Hl.
      destruct (heading_level token) as [level|e|]; [|apply Hl|destruct Hl].
      cbn [mbind outcome_bind].
      destruct (balanced_next tokens i token Hb Hi) as (inl & ->).
      { apply heading_opens. now apply String.eqb_eq. }
      apply IH. lia. }
    destruct (tok_type token =? "paragraph_open") eqn:Hp.
    { destruct (balanced_next tokens i token Hb Hi (paragraph_opens _ Hp)) as (inl & ->).
      apply IH. lia. }
    destruct (tok_type token =? "bullet_list_open").
    { destruct (parse_list_total (drop i tokens) "bulleted_list_item")
        as (out & n & -> & Hn); [now apply balanced_drop|].
      apply IH. lia. }
    destruct (tok_type token =? "ordered_list_open").
    { destruct (parse_list_total (drop i tokens) "numbered_list_item")
        as (out & n & -> & Hn); [now apply balanced_drop|].
      apply IH. lia. }
    destruct (tok_type token =? "fence"); [apply IH; lia|].
    destruct (tok_type token =? "code_block"); [apply IH; lia|].
    destruct (tok_type token =? "blockquote_open").
    { destruct (parse_blockquote_total (drop i tokens))
        as (out & n & -> & Hn); [now apply balanced_drop|].
      apply IH. lia. }
    destruct (tok_type token =? "hr"); apply IH; lia.
Qed.

Lemma tokens_to_blocks_in_range (tokens : list Token) :
  balanced tokens -> in_range tokens (_tokens_to_blocks tokens).
Proof.
  intros Hb. apply (tokens_to_blocks_loop_in_range tokens Hb). lia.
Qed.

Lemma in_range_returns {A : Type} (tokens : list Token) (r : outcome A) :
  in_range tokens r -> heading_tags tokens -> exists a, r = Ok a.
Proof.
  destruct r as [a|e|]; cbn [in_range]; intros Hr Ht; [eauto| |destruct Hr].
  destruct Hr as (token & Hin & Hty & Hl).
  destruct (Ht token Hin Hty) as (level & Hok). congruence.
Qed.

(** C8. On a token stream with the balance the tokenizer guarantees, the
    assembler stops within the fuel it is given and never reads a token
    outside the list: the only exception it can raise comes from reading the
    tag of a [heading_open] token; when every such tag is readable, as the
    tokenizer also guarantees, it returns a block list. *)
Theorem tokens_to_blocks_total (tokens : list Token) :
  balanced tokens ->
  _tokens_to_blocks tokens <> OutOfFuel
  /\ (forall e, _tokens_to_blocks tokens = Raise e ->
        exists token, token ∈ tokens /\ tok_type token = "heading_open"
                      /\ heading_level token = Raise e)
  /\ (heading_tags tokens -> exists blocks, _tokens_to_blocks tokens = Ok blocks).
Proof.
  intros Hb. pose proof (tokens_to_blocks_in_range tokens Hb) as Hr.
  split; [|split].
  - intros E. rewrite E in Hr. exact Hr.
  - intros e E. rewrite E in Hr. exact Hr.
  - intros Ht. now apply (in_range_returns tokens).
Qed.

Lemma tokens_to_blocks_total_witness :
  _tokens_to_blocks checkbox_tokens <> OutOfFuel
  /\ exists blocks, _tokens_to_blocks checkbox_tokens = Ok blocks.
Proof.
  assert (Hb : balanced checkbox_tokens).
  { intros i token Hi Ho.
    destruct i as [|[|[|[|[|[|[|i]]]]]]]; cbn in Hi; try discriminate Hi;
      injection Hi as <-; try discriminate Ho.
    eexists _, _. repeat split. }
  destruct (tokens_to_blocks_total checkbox_tokens Hb) as (H1 & _ & H3).
  split; [exact H1|]. apply H3.
  intros token Hin Hty. unfold checkbox_tokens in Hin.
  rewrite !elem_of_cons, elem_of_nil in Hin.
  repeat (destruct Hin as [Hin|Hin]; [subst token; discriminate Hty|]). destruct Hin.
Defined.

(** Over a tokenizer that keeps the balance and tags its headings,
    [markdown_to_blocks] returns a block list for every input string. *)
Corollary markdown_to_blocks_total (parse : string -> list Token) :
  (forall markdown, balanced (parse markdown) /\ heading_tags (parse markdown)) ->
  forall markdown, exists blocks, markdown_to_blocks parse markdown = Ok blocks.
Proof.
  intros Hparse markdown. destruct (Hparse markdown) as [Hb Ht].
  unfold markdown_to_blocks.
  apply (in_range_returns (parse markdown)); [|exact Ht].
  now apply tokens_to_blocks_in_range.
Qed.

Example unbalanced_paragraph :
  _tokens_to_blocks [plain_token "paragraph_open" "p"] = Raise IndexError.
Proof. reflexivity. Qed.

Example unreadable_heading_tag :
  _tokens_to_blocks
    [plain_token "heading_open" EmptyString; inline_token EmptyString [];
     plain_token "heading_close" EmptyString] = Raise IndexError.
Proof. reflexivity. Qed.

(** ** Lists *)

(** *** Fuel *)

Lemma skip_nested_fuel (tokens : list Token) :
  forall fuel1 fuel2 i nested_depth,
    length tokens <= fuel1 + i -> length tokens <= fuel2 + i ->
    skip_nested fuel1 tokens i nested_depth = skip_nested fuel2 tokens i nested_depth.
Proof.
  induction fuel1 as [|fuel1 IH]; intros [|fuel2] i d H1 H2; cbn [skip_nested];
    destruct (tokens !! i) as [token|] eqn:Hi; try reflexivity;
    destruct (0 <? d)%nat; try reflexivity; try (past_end Hi H1); try (past_end Hi H2).
  apply IH; lia.
Qed.

Lemma item_loop_fuel (tokens : list Token) :
  forall fuel1 fuel2 i item_content,
    length tokens <= fuel1 + i -> length tokens <= fuel2 + i ->
    item_loop fuel1 tokens i item_content = item_loop fuel2 tokens i item_content.
Proof.
  induction fuel1 as [|fuel1 IH]; intros [|fuel2] i ic H1 H2; cbn [item_loop];
    destruct (tokens !! i) as [token|] eqn:Hi; try reflexivity;
    destruct (tok_type token =? "list_item_close"); try reflexivity;
    try (past_end Hi H1); try (past_end Hi H2).
  destruct (tok_type token =? "paragraph_open").
  { destruct (item tokens (i + 1)); cbn [mbind outcome_bind]; [|reflexivity..].
    apply IH; lia. }
  destruct (is_list_open token); [|apply IH; lia].
  destruct (skip_nested_total tokens (length tokens) (i + 1) 1) as (j & -> & Hj); [lia|].
  cbn [mbind outcome_bind]. apply IH; lia.
Qed.

Lemma item_loop_mono (tokens : list Token) :
  forall fuel i item_content j item_content',
    item_loop fuel tokens i item_content = Ok (j, item_content') -> i <= j.
Proof.
  induction fuel as [|fuel IH]; intros i ic j ic'; cbn [item_loop];
    destruct (tokens !! i) as [token|] eqn:Hi; try (intros [= <- _]; lia);
    destruct (tok_type token =? "list_item_close"); try (intros [= <- _]; lia);
    try discriminate.
  destruct (tok_type token =? "paragraph_open").
  { destruct (item tokens (i + 1)); cbn [mbind outcome_bind]; try discriminate.
    intros H%IH. lia. }
  destruct (is_list_open token); [|intros H%IH; lia].
  destruct (skip_nested_total tokens (length tokens) (i + 1) 1) as (k & -> & Hk); [lia|].
  cbn [mbind outcome_bind]. intros H%IH. lia.
Qed.

Lemma parse_list_loop_fuel (tokens : list Token) (list_type : string) :
  forall fuel1 fuel2 i depth blocks,
    length tokens <= fuel1 + i -> length tokens <= fuel2 + i ->
    parse_list_loop fuel1 tokens list_type i depth blocks
    = parse_list_loop fuel2 tokens list_type i depth blocks.
Proof.
  induction fuel1 as [|fuel1 IH]; intros [|fuel2] i depth blocks H1 H2;
    cbn [parse_list_loop];
    destruct (tokens !! i) as [token|] eqn:Hi; try reflexivity;
    destruct (0 <? depth)%nat; try reflexivity;
    try (past_end Hi H1); try (past_end Hi H2).
  destruct (is_list_open token); [apply IH; lia|].
  destruct (is_list_close token); [apply IH; lia|].
  destruct ((tok_type token =? "list_item_open") && (depth =? 1)%nat); [|apply IH; lia].
  destruct (item_loop (length tokens) tokens (i + 1) []) as [[j ic]|e|] eqn:Hitem;
    cbn [mbind outcome_bind]; [|reflexivity..].
  apply item_loop_mono in Hitem. apply IH; lia.
Qed.

Lemma skip_from_unfold (tokens : list Token) (i nested_depth : nat) :
  skip_from tokens i nested_depth
  = skip_nested (S (length tokens)) tokens i nested_depth.
Proof. apply skip_nested_fuel; lia. Qed.

Lemma item_from_unfold (tokens : list Token) (i : nat) (item_content : list (list RichText)) :
  item_from tokens i item_content = item_loop (S (length tokens)) tokens i item_content.
Proof. apply item_loop_fuel; lia. Qed.

Lemma list_from_unfold (tokens : list Token) (list_type : string) (i depth : nat)
    (blocks : list Block) :
  list_from tokens list_type i depth blocks
  = parse_list_loop (S (length tokens)) tokens list_type i depth blocks.
Proof. apply parse_list_loop_fuel; lia. Qed.

(** *** The cursor and the tokens still to read *)

Lemma drop_head (tokens : list Token) (i : nat) (token : Token) (rest : list Token) :
  drop i tokens = token :: rest -> tokens !! i = Some token.
Proof.
  intros H. rewrite <- (Nat.add_0_r i), <- lookup_drop, H. reflexivity.
Qed.

Lemma drop_skip (tokens : list Token) (i : nat) (read rest : list Token) :
  drop i tokens = read ++ rest -> drop (i + length read) tokens = rest.
Proof.
  intros H. rewrite <- drop_drop, H. apply drop_app_length.
Qed.

Lemma drop_next (tokens : list Token) (i : nat) (token : Token) (rest : list Token) :
  drop i tokens = token :: rest -> drop (i + 1) tokens = rest.
Proof. intros H. apply (drop_skip tokens i [token] rest H). Qed.

(** *** Token classes *)

Lemma typed_neutral (token : Token) (type : string) :
  tok_type token = type ->
  ((type =? "bullet_list_open") || (type =? "ordered_list_open")) = false ->
  ((type =? "bullet_list_close") || (type =? "ordered_list_close")) = false ->
  neutral token.
Proof. intros <- H1 H2. split; assumption. Qed.

Lemma typed_passive (token : Token) (type : string) :
  tok_type token = type ->
  ((type =? "bullet_list_open") || (type =? "ordered_list_open")) = false ->
  ((type =? "bullet_list_close") || (type =? "ordered_list_close")) = false ->
  (type =? "list_item_close") = false ->
  (type =? "paragraph_open") = false ->
  passive token.
Proof. intros <- H1 H2 H3 H4. repeat split; assumption. Qed.

Lemma leaf_not (token : Token) (type : string) :
  is_leaf token = true -> In type structural_types -> (tok_type token =? type) = false.
Proof.
  unfold is_leaf. rewrite forallb_forall. intros H Hin.
  apply negb_true_iff. now apply H.
Qed.

Lemma leaf_passive (token : Token) : is_leaf token = true -> passive token.
Proof.
  intros H. unfold passive, neutral, is_list_open, is_list_close.
  rewrite !(leaf_not token _ H) by (cbn; tauto). repeat split.
Qed.

Lemma leaf_not_item_open (token : Token) :
  is_leaf token = true -> (tok_type token =? "list_item_open") = false.
Proof. intros H. apply (leaf_not token _ H). cbn; tauto. Qed.

(** *** One iteration of each loop *)

Lemma skip_from_step (tokens : list Token) (i d : nat) (token : Token) (rest : list Token) :
  drop i tokens = token :: rest -> 0 < d ->
  skip_from tokens i d
  = skip_from tokens (i + 1)
      (if is_list_open token then d + 1
       else if is_list_close token then d - 1 else d).
Proof.
  intros Hd Hpos. rewrite skip_from_unfold. cbn [skip_nested].
  rewrite (drop_head _ _ _ _ Hd).
  destruct (Nat.ltb_spec 0 d) as [_|?]; [reflexivity|lia].
Qed.

Lemma skip_from_neutral (tokens : list Token) (i d : nat) (token : Token) (rest : list Token) :
  drop i tokens = token :: rest -> 0 < d -> neutral token ->
  skip_from tokens i d = skip_from tokens (i + 1) d.
Proof.
  intros Hd Hpos [Ho Hc]. rewrite (skip_from_step _ _ _ _ _ Hd Hpos), Ho, Hc. reflexivity.
Qed.

Lemma skip_from_zero (tokens : list Token) (i : nat) : skip_from tokens i 0 = Ok i.
Proof.
  rewrite skip_from_unfold. cbn [skip_nested]. now destruct (tokens !! i).
Qed.

Lemma item_from_passive (tokens : list Token) (i : nat) (ic : list (list RichText))
    (token : Token) (rest : list Token) :
  drop i tokens = token :: rest -> passive token ->
  item_from tokens i ic = item_from tokens (i + 1) ic.
Proof.
  intros Hd ([Ho _] & Hc & Hp). rewrite item_from_unfold. cbn [item_loop].
  rewrite (drop_head _ _ _ _ Hd), Hc, Hp, Ho. reflexivity.
Qed.

Lemma item_from_paragraph (tokens : list Token) (i : nat) (ic : list (list RichText))
    (opening inner : Token) (rest : list Token) :
  drop i tokens = opening :: inner :: rest -> tok_type opening = "paragraph_open" ->
  item_from tokens i ic = item_from tokens (i + 3) (ic ++ [paragraph_rich_text inner]).
Proof.
  intros Hd Hty. rewrite item_from_unfold. cbn [item_loop].
  rewrite (drop_head _ _ _ _ Hd), Hty. cbn [String.eqb Ascii.eqb Bool.eqb].
  unfold item. rewrite (drop_head _ _ _ _ (drop_next _ _ _ _ Hd)). reflexivity.
Qed.

Lemma item_from_nested (tokens : list Token) (i j : nat) (ic : list (list RichText))
    (opening : Token) (rest : list Token) :
  drop i tokens = opening :: rest ->
  tok_type opening = "bullet_list_open" \/ tok_type opening = "ordered_list_open" ->
  skip_from tokens (i + 1) 1 = Ok j ->
  item_from tokens i ic = item_from tokens j ic.
Proof.
  intros Hd Hty Hskip. rewrite item_from_unfold. cbn [item_loop].
  rewrite (drop_head _ _ _ _ Hd). unfold skip_from in Hskip. unfold is_list_open.
  destruct Hty as [-> | ->]; cbn [String.eqb Ascii.eqb Bool.eqb orb];
    rewrite Hskip; reflexivity.
Qed.

Lemma item_from_close (tokens : list Token) (i : nat) (ic : list (list RichText))
    (closing : Token) (rest : list Token) :
  drop i tokens = closing :: rest -> tok_type closing = "list_item_close" ->
  item_from tokens i ic = Ok (i, ic).
Proof.
  intros Hd Hty. rewrite item_from_unfold. cbn [item_loop].
  rewrite (drop_head _ _ _ _ Hd), Hty. reflexivity.
Qed.

Lemma list_from_item (tokens : list Token) (list_type : string) (i j : nat)
    (blocks : list Block) (ic : list (list RichText)) (opening : Token) (rest : list Token) :
  drop i tokens = opening :: rest -> tok_type opening = "list_item_open" ->
  item_from tokens (i + 1) [] = Ok (j, ic) ->
  list_from tokens list_type i 1 blocks
  = list_from tokens list_type (j + 1) 1
      (match ic with
       | first :: _ => blocks ++ [_make_list_item_block list_type first]
       | [] => blocks
       end).
Proof.
  intros Hd Hty Hitem. rewrite list_from_unfold. cbn [parse_list_loop].
  rewrite (drop_head _ _ _ _ Hd). unfold is_list_open, is_list_close. rewrite Hty.
  cbn [String.eqb Ascii.eqb Bool.eqb orb andb Nat.ltb Nat.leb Nat.eqb].
  unfold item_from in Hitem. rewrite Hitem. reflexivity.
Qed.

Lemma list_from_close (tokens : list Token) (list_type : string) (i : nat)
    (blocks : list Block) (closing : Token) (rest : list Token) :
  drop i tokens = closing :: rest ->
  tok_type closing = "bullet_list_close" \/ tok_type closing = "ordered_list_close" ->
  list_from tokens list_type i 1 blocks = Ok (blocks, i + 1).
Proof.
  intros Hd Hty. rewrite list_from_unfold. cbn [parse_list_loop].
  rewrite (drop_head _ _ _ _ Hd). unfold is_list_open, is_list_close.
  assert (Hz : forall fuel, parse_list_loop fuel tokens list_type (i + 1) (1 - 1) blocks
                            = Ok (blocks, i + 1)).
  { intros fuel. destruct fuel; cbn [parse_list_loop]; now destruct (tokens !! (i + 1)). }
  destruct Hty as [-> | ->];
    cbn [String.eqb Ascii.eqb Bool.eqb orb andb Nat.ltb Nat.leb]; apply Hz.
Qed.

(** *** Walking over a well-formed construct *)

Ltac token_class :=
  first
    [ now apply leaf_passive
    | eapply typed_passive; [eassumption|reflexivity..]
    | eapply typed_neutral; [eassumption|reflexivity..]
    | apply leaf_passive; assumption ].

Lemma passive_neutral (token : Token) : passive token -> neutral token.
Proof. now intros [H _]. Qed.

(** The nested-list skip passes a well-formed construct at the depth it
    entered it with. *)
Lemma skip_from_nodes :
  (forall nodes, well_formed nodes ->
     forall tokens i d rest, 0 < d -> drop i tokens = flatten nodes ++ rest ->
       skip_from tokens i d = skip_from tokens (i + length (flatten nodes)) d)
  /\ (forall items, well_formed_items items ->
     forall tokens i d rest, 0 < d -> drop i tokens = flatten_items items ++ rest ->
       skip_from tokens i d = skip_from tokens (i + length (flatten_items items)) d).
Proof.
  apply Nodes_Items_ind.
  - intros _ tokens i d rest _ _. cbn. now rewrite Nat.add_0_r.
  - intros token nodes IH [Hl Hwf] tokens i d rest Hd Hdrop. cbn in Hdrop.
    rewrite (skip_from_neutral _ _ _ _ _ Hdrop Hd) by (apply passive_neutral; token_class).
    rewrite (IH Hwf _ _ _ _ Hd (drop_next _ _ _ _ Hdrop)).
    cbn [flatten length]. f_equal. lia.
  - intros o inner c nodes IH (Ho & Hi & Hc & Hwf) tokens i d rest Hd Hdrop. cbn in Hdrop.
    pose proof (drop_next _ _ _ _ Hdrop) as Hdrop1.
    pose proof (drop_next _ _ _ _ Hdrop1) as Hdrop2.
    pose proof (drop_next _ _ _ _ Hdrop2) as Hdrop3.
    rewrite (skip_from_neutral _ _ _ _ _ Hdrop Hd) by token_class.
    rewrite (skip_from_neutral _ _ _ _ _ Hdrop1 Hd) by token_class.
    rewrite (skip_from_neutral _ _ _ _ _ Hdrop2 Hd) by token_class.
    rewrite (IH Hwf _ _ _ _ Hd Hdrop3).
    cbn [flatten length]. f_equal. lia.
  - intros o inner c nodes IH (Ho & Hi & Hc & Hwf) tokens i d rest Hd Hdrop. cbn in Hdrop.
    pose proof (drop_next _ _ _ _ Hdrop) as Hdrop1.
    pose proof (drop_next _ _ _ _ Hdrop1) as Hdrop2.
    pose proof (drop_next _ _ _ _ Hdrop2) as Hdrop3.
    rewrite (skip_from_neutral _ _ _ _ _ Hdrop Hd) by token_class.
    rewrite (skip_from_neutral _ _ _ _ _ Hdrop1 Hd) by token_class.
    rewrite (skip_from_neutral _ _ _ _ _ Hdrop2 Hd) by token_class.
    rewrite (IH Hwf _ _ _ _ Hd Hdrop3).
    cbn [flatten length]. f_equal. lia.
  - intros o body IHb c nodes IH (Ho & Hwb & Hc & Hwf) tokens i d rest Hd Hdrop.
    cbn in Hdrop. rewrite <- app_assoc in Hdrop. cbn in Hdrop.
    pose proof (drop_next _ _ _ _ Hdrop) as Hdrop1.
    pose proof (drop_skip _ _ _ _ Hdrop1) as Hdrop2.
    pose proof (drop_next _ _ _ _ Hdrop2) as Hdrop3.
    rewrite (skip_from_neutral _ _ _ _ _ Hdrop Hd) by token_class.
    rewrite (IHb Hwb _ _ _ _ Hd Hdrop1).
    rewrite (skip_from_neutral _ _ _ _ _ Hdrop2 Hd) by token_class.
    rewrite (IH Hwf _ _ _ _ Hd Hdrop3).
    cbn [flatten length]. rewrite length_app. cbn [length]. f_equal. lia.
  - intros o items IHi c nodes IH (Hdel & Hwi & Hwf) tokens i d rest Hd Hdrop.
    cbn in Hdrop. rewrite <- app_assoc in Hdrop. cbn in Hdrop.
    pose proof (drop_next _ _ _ _ Hdrop) as Hdrop1.
    pose proof (drop_skip _ _ _ _ Hdrop1) as Hdrop2.
    pose proof (drop_next _ _ _ _ Hdrop2) as Hdrop3.
    rewrite (skip_from_step _ _ _ _ _ Hdrop Hd).
    assert (Hopen : is_list_open o = true /\ is_list_open c = false /\ is_list_close c = true).
    { unfold is_list_open, is_list_close.
      destruct Hdel as [[-> ->]|[-> ->]]; repeat split. }
    destruct Hopen as (Hoo & Hco & Hcc). rewrite Hoo.
    assert (Hd1 : 0 < d + 1) by lia.
    rewrite (IHi Hwi _ _ _ _ Hd1 Hdrop1).
    rewrite (skip_from_step _ _ _ _ _ Hdrop2 Hd1), Hco, Hcc.
    replace (d + 1 - 1) with d by lia.
    rewrite (IH Hwf _ _ _ _ Hd Hdrop3).
    cbn [flatten length]. rewrite length_app. cbn [length]. f_equal. lia.
  - intros _ tokens i d rest _ _. cbn. now rewrite Nat.add_0_r.
  - intros o body IHb c items IH (Ho & Hwb & Hc & Hwi) tokens i d rest Hd Hdrop.
    cbn in Hdrop. rewrite <- app_assoc in Hdrop. cbn in Hdrop.
    pose proof (drop_next _ _ _ _ Hdrop) as Hdrop1.
    pose proof (drop_skip _ _ _ _ Hdrop1) as Hdrop2.
    pose proof (drop_next _ _ _ _ Hdrop2) as Hdrop3.
    rewrite (skip_from_neutral _ _ _ _ _ Hdrop Hd) by token_class.
    rewrite (IHb Hwb _ _ _ _ Hd Hdrop1).
    rewrite (skip_from_neutral _ _ _ _ _ Hdrop2 Hd) by token_class.
    rewrite (IH Hwi _ _ _ _ Hd Hdrop3).
    cbn [flatten_items length]. rewrite length_app. cbn [length]. f_equal. lia.
Qed.

(** The item loop passes a well-formed construct and collects the paragraphs
    that are not inside a nested list. *)
Lemma item_from_nodes (nodes : Nodes) :
  well_formed nodes ->
  forall tokens i ic rest, drop i tokens = flatten nodes ++ rest ->
    item_from tokens i ic
    = item_from tokens (i + length (flatten nodes))
        (ic ++ map paragraph_rich_text (paragraphs_outside_lists nodes)).
Proof.
  induction nodes using Nodes_mut with (P0 := fun _ => True);
    try (intros; exact I).
  - intros _ tokens i ic rest _. cbn. now rewrite Nat.add_0_r, app_nil_r.
  - rename IHnodes into IH. intros [Hl Hwf] tokens i ic rest Hdrop. cbn in Hdrop.
    rewrite (item_from_passive _ _ _ _ _ Hdrop) by token_class.
    rewrite (IH Hwf _ _ _ _ (drop_next _ _ _ _ Hdrop)).
    cbn [flatten length paragraphs_outside_lists]. f_equal. lia.
  - rename IHnodes into IH, opening into o, closing into c.
    intros (Ho & Hi & Hc & Hwf) tokens i ic rest Hdrop. cbn in Hdrop.
    rewrite (item_from_paragraph _ _ _ _ _ _ Hdrop Ho).
    pose proof (drop_skip tokens i [o; inner; c] _ Hdrop) as Hdrop3.
    rewrite (IH Hwf _ _ _ _ Hdrop3).
    cbn [flatten length paragraphs_outside_lists map]. rewrite <- app_assoc.
    f_equal. lia.
  - rename IHnodes into IH, opening into o, closing into c.
    intros (Ho & Hi & Hc & Hwf) tokens i ic rest Hdrop. cbn in Hdrop.
    pose proof (drop_next _ _ _ _ Hdrop) as Hdrop1.
    pose proof (drop_next _ _ _ _ Hdrop1) as Hdrop2.
    pose proof (drop_next _ _ _ _ Hdrop2) as Hdrop3.
    rewrite (item_from_passive _ _ _ _ _ Hdrop) by token_class.
    rewrite (item_from_passive _ _ _ _ _ Hdrop1) by token_class.
    rewrite (item_from_passive _ _ _ _ _ Hdrop2) by token_class.
    rewrite (IH Hwf _ _ _ _ Hdrop3).
    cbn [flatten length paragraphs_outside_lists]. f_equal. lia.
  - rename IHnodes1 into IHb, IHnodes2 into IH, opening into o, closing into c.
    intros (Ho & Hwb & Hc & Hwf) tokens i ic rest Hdrop.
    cbn in Hdrop. rewrite <- app_assoc in Hdrop. cbn in Hdrop.
    pose proof (drop_next _ _ _ _ Hdrop) as Hdrop1.
    pose proof (drop_skip _ _ _ _ Hdrop1) as Hdrop2.
    pose proof (drop_next _ _ _ _ Hdrop2) as Hdrop3.
    rewrite (item_from_passive _ _ _ _ _ Hdrop) by token_class.
    rewrite (IHb Hwb _ _ _ _ Hdrop1).
    rewrite (item_from_passive _ _ _ _ _ Hdrop2) by token_class.
    rewrite (IH Hwf _ _ _ _ Hdrop3).
    cbn [flatten length paragraphs_outside_lists].
    rewrite length_app, map_app, app_assoc. cbn [length]. f_equal. lia.
  - rename IHnodes0 into IH, opening into o, closing into c.
    intros (Hdel & Hwi & Hwf) tokens i ic rest Hdrop.
    cbn in Hdrop. rewrite <- app_assoc in Hdrop. cbn in Hdrop.
    pose proof (drop_next _ _ _ _ Hdrop) as Hdrop1.
    pose proof (drop_skip _ _ _ _ Hdrop1) as Hdrop2.
    pose proof (drop_next _ _ _ _ Hdrop2) as Hdrop3.
    assert (Hskip : skip_from tokens (i + 1) 1
                    = Ok (i + 1 + length (flatten_items items) + 1)).
    { rewrite (proj2 skip_from_nodes items Hwi _ _ _ _ Nat.lt_0_1 Hdrop1).
      rewrite (skip_from_step _ _ _ _ _ Hdrop2 Nat.lt_0_1).
      unfold is_list_open, is_list_close.
      destruct Hdel as [[_ ->]|[_ ->]]; apply skip_from_zero. }
    assert (Hopen : tok_type o = "bullet_list_open" \/ tok_type o = "ordered_list_open")
      by (destruct Hdel as [[? _]|[? _]]; auto).
    rewrite (item_from_nested _ _ _ ic _ _ Hdrop Hopen Hskip).
    rewrite (IH Hwf _ _ _ _ Hdrop3).
    cbn [flatten length paragraphs_outside_lists]. rewrite length_app. cbn [length].
    f_equal. lia.
Qed.

Lemma item_block_of_content (list_type : string) (blocks : list Block)
    (paragraphs : list Token) :
  match map paragraph_rich_text paragraphs with
  | first :: _ => blocks ++ [_make_list_item_block list_type first]
  | [] => blocks
  end = blocks ++ item_block list_type paragraphs.
Proof. destruct paragraphs; cbn; [now rewrite app_nil_r|reflexivity]. Qed.

(** The list loop at depth 1 passes the items of a list and appends one block
    for each item that has a paragraph outside nested lists. *)
Lemma list_from_items (items : Items) :
  well_formed_items items ->
  forall tokens list_type i blocks rest,
    drop i tokens = flatten_items items ++ rest ->
    list_from tokens list_type i 1 blocks
    = list_from tokens list_type (i + length (flatten_items items)) 1
        (blocks ++ item_blocks paragraphs_outside_lists list_type items).
Proof.
  induction items as [|o body c items IH].
  - intros _ tokens lt i blocks rest _. cbn. now rewrite Nat.add_0_r, app_nil_r.
  - intros (Ho & Hwb & Hc & Hwi) tokens lt i blocks rest Hdrop.
    cbn in Hdrop. rewrite <- app_assoc in Hdrop. cbn in Hdrop.
    pose proof (drop_next _ _ _ _ Hdrop) as Hdrop1.
    pose proof (drop_skip _ _ _ _ Hdrop1) as Hdrop2.
    pose proof (drop_next _ _ _ _ Hdrop2) as Hdrop3.
    assert (Hitem : item_from tokens (i + 1) []
                    = Ok (i + 1 + length (flatten body),
                          map paragraph_rich_text (paragraphs_outside_lists body))).
    { rewrite (item_from_nodes body Hwb _ _ _ _ Hdrop1).
      apply (item_from_close _ _ _ _ _ Hdrop2 Hc). }
    rewrite (list_from_item _ _ _ _ _ _ _ _ Hdrop Ho Hitem).
    rewrite item_block_of_content.
    rewrite (IH Hwi _ _ _ _ _ Hdrop3).
    cbn [flatten_items length item_blocks]. rewrite length_app, app_assoc. cbn [length].
    f_equal. lia.
Qed.

(** [_parse_list] on a list followed by any tokens. *)
Lemma parse_list_items (opening closing : Token) (items : Items)
    (rest : list Token) (list_type : string) :
  list_delimiters opening closing -> well_formed_items items ->
  _parse_list (opening :: flatten_items items ++ closing :: rest) list_type
  = Ok (item_blocks paragraphs_outside_lists list_type items,
        length (flatten_items items) + 2).
Proof.
  intros Hdel Hwi. set (tokens := opening :: flatten_items items ++ closing :: rest).
  change (_parse_list tokens list_type) with (list_from tokens list_type 1 1 []).
  assert (Hdrop1 : drop 1 tokens = flatten_items items ++ closing :: rest) by reflexivity.
  rewrite (list_from_items items Hwi _ _ _ _ _ Hdrop1).
  pose proof (drop_skip _ _ _ _ Hdrop1) as Hdrop2.
  rewrite (list_from_close _ _ _ _ _ _ Hdrop2)
    by (destruct Hdel as [[_ ?]|[_ ?]]; auto).
  cbn [app]. do 2 f_equal. lia.
Qed.



